(** * git-clean: the prefix writer, the command runner and the orchestrator

    A shallow embedding of [main.go].  Go's [[]byte] is [list byte], Go's
    [string] is [string], and the conversions [[]byte(s)] and [string(b)] are
    [list_byte_of_string] and [string_of_list_byte].  Go's [int] is a 64-bit
    two's complement integer, modelled as [Z] with the wrap-around written
    where an addition is not bounded by a slice length.  An [error] value is
    modelled by its message. *)

From Stdlib Require Import List ZArith Lia Bool String Ascii.
From Stdlib.Strings Require Import Byte.
From Equations Require Import Equations.
From Equations.Prop Require Import Logic.
Import ListNotations.
Open Scope Z_scope.

Set Implicit Arguments.

(** ** Go values *)

Definition error := string.

(** [len(s)] *)
Definition len {A} (s : list A) : Z := Z.of_nat (List.length s).

(** [p[lo:]] *)
Definition slice_from {A} (p : list A) (lo : Z) : list A :=
  skipn (Z.to_nat lo) p.

(** [p[lo:hi]] *)
Definition slice {A} (p : list A) (lo hi : Z) : list A :=
  firstn (Z.to_nat (hi - lo)) (skipn (Z.to_nat lo) p).

Definition max_int : Z := 2 ^ 63 - 1.

(** Addition on [int] wraps around. *)
Definition int_wrap (z : Z) : Z := (z + 2 ^ 63) mod 2 ^ 64 - 2 ^ 63.

Definition newline : byte := x0a.

(** ** io.Writer

    [Write(p) (n int, err error)], with the state of the writer passed
    explicitly. *)

Class Writer (W : Type) := Write : W -> list byte -> W * (Z * option error).

(** [bytes.Buffer]: every write is appended and accepted. *)
Definition Buffer := list byte.

#[export] Instance Buffer_Writer : Writer Buffer :=
  fun b p => (b ++ p, (len p, None))%list.

(** A destination seen from its caller: it records every slice handed to it,
    and its answer to a write is a function of what it received before and of
    the slice.  Every deterministic [io.Writer] is of this form. *)
Record Sink := mkSink
  { received : list (list byte);
    respond : list (list byte) -> list byte -> Z * option error }.

#[export] Instance Sink_Writer : Writer Sink :=
  fun s p => (mkSink (received s ++ [p]) (respond s), respond s (received s) p).

(** The sink accepts every write it can ever be given. *)
Definition accepting (s : Sink) : Prop :=
  forall h p, respond s h p = (len p, None).

(** The contract of [io.Writer]: [0 <= n <= len(p)], and a short write comes
    with an error. *)
Definition obeys_contract (s : Sink) : Prop :=
  forall h p, 0 <= fst (respond s h p) <= len p /\
              (snd (respond s h p) = None -> fst (respond s h p) = len p).

(** ** prefixWriter *)

Record prefixWriter (W : Type) := mkPrefixWriter
  { started : bool;
    prefix : string;
    w : W }.

(** [pw.started = b] *)
Definition set_started {W} (pw : prefixWriter W) (b : bool) : prefixWriter W :=
  mkPrefixWriter b (prefix pw) (w pw).

(** The writer [pw.w] after a write to it. *)
Definition set_w {W} (pw : prefixWriter W) (w' : W) : prefixWriter W :=
  mkPrefixWriter (started pw) (prefix pw) w'.

(** The inner loop of [Write]:
    [for i := start; i < len(p); i++ { if p[i] == '\n' { newlineIdx = i; break } }],
    over the slice [p[start:]] with the index [i] counted along. *)
Fixpoint scanNewline (rest : list byte) (i : Z) : Z :=
  match rest with
  | [] => -1
  | c :: rest' => if Byte.eqb c newline then i else scanNewline rest' (i + 1)
  end.

Definition findNewline (p : list byte) (start : Z) : Z :=
  scanNewline (slice_from p start) start.

Lemma scanNewline_lower rest i :
  scanNewline rest i <> -1 -> i <= scanNewline rest i.
Proof.
  revert i; induction rest as [|c rest IH]; intros i Hn; simpl in *.
  - congruence.
  - destruct (Byte.eqb c newline); [lia|].
    specialize (IH (i + 1) Hn). lia.
Qed.

Section PrefixWriter.
Context {W : Type} {HW : Writer W}.

Definition writeOnce (pw : prefixWriter W) (p : list byte)
  : prefixWriter W * (Z * option error) :=
  if negb (started pw) then
    let '(w1, (_, err)) := Write (w pw) (list_byte_of_string (prefix pw)) in
    match err with
    | Some e => (set_w pw w1, (0, Some e))
    | None => let '(w2, r) := Write w1 p in (set_w pw w2, r)
    end
  else
    let '(w2, r) := Write (w pw) p in (set_w pw w2, r).

(** The outer loop of [Write], from the iteration that begins at [start].
    Every iteration returns or moves [start] past a newline, so
    [len(p) - start] decreases. *)
Equations? Write_from (pw : prefixWriter W) (p : list byte) (start : Z)
  : prefixWriter W * (Z * option error)
  by wf (Z.to_nat (len p - start)) lt :=
Write_from pw p start with Z_lt_dec start (len p) := {
  | right _ => (pw, (len p, None));
  | left _ with inspect (findNewline p start) := {
    | exist _ newlineIdx _ with Z.eq_dec newlineIdx (-1) := {
      | left _ =>
          let '(pw1, (n, err)) := writeOnce pw (slice_from p start) in
          (match err with
           | None => set_started pw1 true
           | Some _ => pw1
           end, (int_wrap (start + n), err));
      | right _ =>
          match writeOnce pw (slice p start (newlineIdx + 1)) with
          | (pw1, (n, Some e)) => (pw1, (int_wrap (start + n), Some e))
          | (pw1, (n, None)) =>
              Write_from (set_started pw1 false) p (newlineIdx + 1)
          end } } }.
Proof.
  pose proof (scanNewline_lower (slice_from p start) start) as L.
  unfold findNewline in *. lia.
Qed.

#[export] Instance prefixWriter_Writer : Writer (prefixWriter W) :=
  fun pw p => Write_from pw p 0.

(** A caller's successive [Write] calls, with the result of each. *)
Fixpoint WriteAll (pw : prefixWriter W) (chunks : list (list byte))
  : prefixWriter W * list (Z * option error) :=
  match chunks with
  | [] => (pw, [])
  | c :: cs =>
      let '(pw1, r) := Write pw c in
      let '(pw2, rs) := WriteAll pw1 cs in
      (pw2, r :: rs)
  end.
End PrefixWriter.

(** [&prefixWriter{prefix: prefix, w: w}]: [started] has its zero value. *)
Definition newPrefixWriter {W} (prefix : string) (w : W) : prefixWriter W :=
  mkPrefixWriter false prefix w.

(** ** The spans of a write

    What the spec calls the spans of [data]: each maximal run of bytes up to
    and including the next newline, and the trailing partial line if there
    is one. *)
Fixpoint spans (data : list byte) : list (list byte) :=
  match data with
  | [] => []
  | c :: rest =>
      if Byte.eqb c newline then [c] :: spans rest
      else match spans rest with
           | [] => [[c]]
           | s :: ss => (c :: s) :: ss
           end
  end.

Definition has_newline (s : list byte) : bool :=
  existsb (fun c => Byte.eqb c newline) s.

(** A line with its newline, and the beginning of a line. *)
Definition complete_line (l : list byte) : Prop :=
  exists body, l = body ++ [newline] /\ has_newline body = false.

Definition partial_line (l : list byte) : Prop :=
  l <> [] /\ has_newline l = false.

(** The writes a destination receives when every line, given as the group of
    the slices that make it up, is preceded by one write of the prefix. *)
Definition with_prefix (pfx : list byte) (groups : list (list (list byte)))
  : list (list byte) :=
  flat_map (fun g => pfx :: g) groups.

(** The lines written so far, as groups of slices: all complete, or, when the
    writer is in the middle of a line, all complete but the last. *)
Definition grouped (midline : bool) (groups : list (list (list byte))) : Prop :=
  if midline then
    exists gs g, groups = gs ++ [g] /\
                 Forall complete_line (map (@List.concat byte) gs) /\
                 partial_line (List.concat g)
  else Forall complete_line (map (@List.concat byte) groups).

(** What holds of a prefix writer over a sink that had received [before] when
    the writer was made, after the bytes [data] were written through it. *)
Definition line_invariant (before : list (list byte)) (data : list byte)
    (pw : prefixWriter Sink) : Prop :=
  exists groups,
    received (w pw) =
      before ++ with_prefix (list_byte_of_string (prefix pw)) groups /\
    List.concat (map (@List.concat byte) groups) = data /\
    grouped (started pw) groups.

(** The writes of the spans [ss] to the destination when each is accepted:
    the first span after the prefix unless the writer is in the middle of a
    line, every later span after the prefix. *)
Fixpoint emitted (pfx : list byte) (midline : bool) (ss : list (list byte))
  : list (list byte) :=
  match ss with
  | [] => []
  | s :: rest => (if midline then [s] else [pfx; s]) ++ emitted pfx false rest
  end.

(** The mid-line flag after the spans [ss] were written: a span that ends
    in a newline clears it, a span without newline sets it. *)
Definition started_after (midline : bool) (ss : list (list byte)) : bool :=
  fold_left (fun _ s => negb (has_newline s)) ss midline.

(** A destination that had received [h] accepts the writes [ws], one after
    the other. *)
Fixpoint all_accepted (respond : list (list byte) -> list byte -> Z * option error)
    (h : list (list byte)) (ws : list (list byte)) : Prop :=
  match ws with
  | [] => True
  | x :: xs => snd (respond h x) = None /\ all_accepted respond (h ++ [x]) xs
  end.

(** The write of the span [s] fails with [e] at a destination that had
    received [h]: the destination rejects the prefix, and the span is not
    written, or it rejects the span.  [k] is the count of bytes of the span
    that the destination reports, and [after] is what it has received then:
    the rejected write is the last. *)
Definition rejected (respond : list (list byte) -> list byte -> Z * option error)
    (pfx : list byte) (midline : bool) (h : list (list byte)) (s : list byte)
    (k : Z) (e : error) (after : list (list byte)) : Prop :=
  (midline = false /\ snd (respond h pfx) = Some e /\ k = 0 /\
   after = h ++ [pfx]) \/
  ((midline = false -> snd (respond h pfx) = None) /\
   respond (if midline then h else h ++ [pfx]) s = (k, Some e) /\
   after = (if midline then h else h ++ [pfx]) ++ [s]).

(** What a call [pw.Write(p)] that returned [(n, err)] and left the writer
    [pw'] has done.  Without error, every span went to the destination and
    [n] is [len(p)].  With an error, the spans [done] went to the destination
    and were accepted, the write of the next span [s] was rejected and is the
    last write the destination received, and [n] counts the bytes of [done]
    and the [k] bytes of [s] that the destination reports. *)
Definition Write_outcome (pw : prefixWriter Sink) (p : list byte)
    (pw' : prefixWriter Sink) (n : Z) (err : option error) : Prop :=
  let pfx := list_byte_of_string (prefix pw) in
  match err with
  | None =>
      n = len p /\
      received (w pw') = received (w pw) ++ emitted pfx (started pw) (spans p)
  | Some e =>
      exists done s rest k,
        spans p = done ++ s :: rest /\
        all_accepted (respond (w pw)) (received (w pw))
                     (emitted pfx (started pw) done) /\
        rejected (respond (w pw)) pfx
                 (match done with [] => started pw | _ :: _ => false end)
                 (received (w pw) ++ emitted pfx (started pw) done)
                 s k e (received (w pw')) /\
        0 <= k <= len s /\
        n = len (List.concat done) + k
  end.

Section WriteSpans.
Context {W : Type} {HW : Writer W}.

(** The span-by-span rule of the spec, over a list of spans: [total] is
    [len(p)] and [start] the offset of the first span of [ss] in [p]. *)
Fixpoint write_spans (total : Z) (pw : prefixWriter W) (start : Z)
    (ss : list (list byte)) : prefixWriter W * (Z * option error) :=
  match ss with
  | [] => (pw, (total, None))
  | s :: rest =>
      if has_newline s then
        match writeOnce pw s with
        | (pw1, (n, Some e)) => (pw1, (int_wrap (start + n), Some e))
        | (pw1, (n, None)) =>
            write_spans total (set_started pw1 false) (start + len s) rest
        end
      else
        let '(pw1, (n, err)) := writeOnce pw s in
        (match err with
         | None => set_started pw1 true
         | Some _ => pw1
         end, (int_wrap (start + n), err))
  end.
End WriteSpans.

(** ** The standard library, as far as the program uses it *)

(** [unicode.IsSpace] on the UTF-8 encoding: the one-byte white space
    ['\t'], ['\n'], ['\v'], ['\f'], ['\r'], [' '], the two-byte U+0085 and
    U+00A0, and the three-byte U+1680, U+2000 to U+200A, U+2028, U+2029,
    U+202F, U+205F and U+3000. *)
Definition isSpace1 (a : byte) : bool :=
  match a with
  | x09 | x0a | x0b | x0c | x0d | x20 => true
  | _ => false
  end.

Definition isSpace2 (a b : byte) : bool :=
  match a, b with
  | xc2, x85 | xc2, xa0 => true
  | _, _ => false
  end.

Definition isSpace3 (a b c : byte) : bool :=
  match a, b, c with
  | xe1, x9a, x80 => true
  | xe2, x80, (x80 | x81 | x82 | x83 | x84 | x85 | x86 | x87 | x88 | x89 | x8a) => true
  | xe2, x80, (xa8 | xa9 | xaf) => true
  | xe2, x81, x9f => true
  | xe3, x80, x80 => true
  | _, _, _ => false
  end.

(** [bytes.TrimLeftFunc(s, unicode.IsSpace)] *)
Fixpoint trimLeft (s : list byte) : list byte :=
  match s with
  | [] => []
  | a :: s1 =>
      if isSpace1 a then trimLeft s1
      else match s1 with
           | [] => s
           | b :: s2 =>
               if isSpace2 a b then trimLeft s2
               else match s2 with
                    | [] => s
                    | c :: s3 => if isSpace3 a b c then trimLeft s3 else s
                    end
           end
  end.

(** [bytes.TrimRightFunc(s, unicode.IsSpace)], on the reversed slice. *)
Fixpoint trimRightRev (r : list byte) : list byte :=
  match r with
  | [] => []
  | c :: r1 =>
      if isSpace1 c then trimRightRev r1
      else match r1 with
           | [] => r
           | b :: r2 =>
               if isSpace2 b c then trimRightRev r2
               else match r2 with
                    | [] => r
                    | a :: r3 => if isSpace3 a b c then trimRightRev r3 else r
                    end
           end
  end.

Module bytes.
  (** [bytes.TrimSpace] *)
Definition TrimSpace (s : list byte) : list byte :=
  rev (trimRightRev (rev (trimLeft s))).
End bytes.

Module strings.
  (** [strings.TrimSpace] *)
Definition TrimSpace (s : string) : string :=
  string_of_list_byte (bytes.TrimSpace (list_byte_of_string s)).

  (** [strings.HasPrefix] *)
Definition HasPrefix (s pre : string) : bool := String.prefix pre s.

  (** [strings.Join] *)
Definition Join (elems : list string) (sep : string) : string :=
  String.concat sep elems.
End strings.

Module bufio.
Definition MaxScanTokenSize : Z := 64 * 1024.

Definition ErrTooLong : error := "bufio.Scanner: token too long"%string.

  (** [dropCR]: a line without its trailing carriage return. *)
Definition dropCR (data : list byte) : list byte :=
  match rev data with
  | x0d :: r => rev r
  | _ => data
  end.

  (** The tokens that the successive calls of [Scan] deliver with the split
      function [ScanLines] over a reader of [data], and what [Err] returns
      after the call of [Scan] that returned false.  [cur] is the line read
      so far, last byte first.  A line is delivered without its newline and
      trailing carriage return; the last line is delivered also when it has
      no newline, unless it is empty.  The buffer of the scanner grows to
      [MaxScanTokenSize] bytes: a line that fills it without a newline in
      sight ends the scan with [ErrTooLong]. *)
Fixpoint scan (data : list byte) (cur : list byte)
    : list (list byte) * option error :=
    match data with
    | [] =>
        match cur with
        | [] => ([], None)
        | _ :: _ =>
            if MaxScanTokenSize <=? len cur then ([], Some ErrTooLong)
            else ([dropCR (rev cur)], None)
        end
    | c :: rest =>
        if Byte.eqb c newline then
          if MaxScanTokenSize <=? len cur then ([], Some ErrTooLong)
          else let '(tokens, err) := scan rest [] in
               (dropCR (rev cur) :: tokens, err)
        else scan rest (c :: cur)
    end.

Definition ScanLines (data : list byte) : list (list byte) * option error :=
  scan data [].
End bufio.

Module regexp.
Fixpoint starts_with (pre s : list byte) : bool :=
    match pre, s with
    | [], _ => true
    | _ :: _, [] => false
    | a :: pre', b :: s' => Byte.eqb a b && starts_with pre' s'
    end.

  (** What follows the leftmost occurrence of [lit] in [s]. *)
Fixpoint after_literal (lit s : list byte) : option (list byte) :=
    if starts_with lit s then Some (skipn (List.length lit) s)
    else match s with
         | [] => None
         | _ :: s' => after_literal lit s'
         end.

  (** The longest match of [.*]: the bytes before the next newline. *)
Fixpoint up_to_newline (s : list byte) : list byte :=
    match s with
    | [] => []
    | c :: s' => if Byte.eqb c newline then [] else c :: up_to_newline s'
    end.

  (** [FindSubmatch(s)] of the pattern that is the literal [lit] followed by
      one group of any characters but newline, as many as there are: the
      leftmost match and its group, or [nil]. *)
Definition FindSubmatch (lit : string) (s : list byte) : list (list byte) :=
    match after_literal (list_byte_of_string lit) s with
    | None => []
    | Some rest =>
        let group := up_to_newline rest in
        [list_byte_of_string lit ++ group; group]
    end.
End regexp.

Module io.
Definition ErrShortWrite : error := "short write"%string.

Definition errInvalidWrite : error := "invalid write result"%string.

  (** [io.MultiWriter(first, second)] *)
Record multiWriter (W1 W2 : Type) := mkMultiWriter
    { first : W1; second : W2 }.

#[export] Instance multiWriter_Writer {W1 W2} `{Writer W1} `{Writer W2}
    : Writer (multiWriter W1 W2) :=
    fun t p =>
      let '(w1, (n, err)) := Write (first t) p in
      match err with
      | Some e => (mkMultiWriter w1 (second t), (n, Some e))
      | None =>
          if negb (n =? len p) then
            (mkMultiWriter w1 (second t), (n, Some ErrShortWrite))
          else
            let '(w2, (n, err)) := Write (second t) p in
            match err with
            | Some e => (mkMultiWriter w1 w2, (n, Some e))
            | None =>
                if negb (n =? len p) then
                  (mkMultiWriter w1 w2, (n, Some ErrShortWrite))
                else (mkMultiWriter w1 w2, (len p, None))
            end
      end.

  (** [io.Copy(dst, src)] for a source that is read in the slices [chunks]:
      each slice is written to [dst], up to the first write that fails or is
      short. *)
Fixpoint Copy {W} `{Writer W} (dst : W) (chunks : list (list byte))
    : W * option error :=
    match chunks with
    | [] => (dst, None)
    | c :: cs =>
        let '(dst1, (nw, ew)) := Write dst c in
        let ew :=
          if (nw <? 0) || (len c <? nw) then
            match ew with None => Some errInvalidWrite | Some e => Some e end
          else ew in
        match ew with
        | Some e => (dst1, Some e)
        | None => if negb (len c =? nw) then (dst1, Some ErrShortWrite)
                  else Copy dst1 cs
        end
    end.
End io.
Export io.

(** ** The world of the program *)

(** A run of an external process: what it writes to its standard output and
    standard error, in the slices in which the writes arrive, and the error
    of waiting for it, if it fails or is killed at the deadline. *)
Record Process := mkProcess
  { proc_stdout : list (list byte);
    proc_stderr : list (list byte);
    proc_err : option error }.

(** What the program cannot decide: where a command name is found, and what a
    process does, given the deadline, the argument vectors of the processes
    started before it and its own argument vector.  A command whose
    executable is found is started: a failure of fork or exec after a
    successful look-up is outside this environment. *)
Record Env := mkEnv
  { LookPath : string -> string * option error;
    start : Z -> list (list string) -> list string -> Process }.

(** The argument vector of every process started, and every slice written
    to [os.Stdout] and to [os.Stderr], in order.  The two streams accept every
    write. *)
Record World := mkWorld
  { spawned : list (list string);
    os_Stdout : list (list byte);
    os_Stderr : list (list byte) }.

Definition os_File (written : list (list byte)) : Sink :=
  mkSink written (fun _ p => (len p, None)).

(** A computation returns or ends the process with [os.Exit]. *)
Inductive outcome (A : Type) : Type :=
| Returned (a : A)
| Exited (code : Z).
Arguments Exited {A}.

Definition M (A : Type) : Type := World -> outcome A * World.

Definition ret {A} (a : A) : M A := fun world => (Returned a, world).

Definition bind {A B} (m : M A) (k : A -> M B) : M B :=
  fun world =>
    match m world with
    | (Returned a, world1) => k a world1
    | (Exited code, world1) => (Exited code, world1)
    end.

Notation "x <- m ;; k" := (bind m (fun x => k))
  (at level 61, m at next level, right associativity).
Notation "m ;; k" := (bind m (fun _ => k))
  (at level 61, right associativity).

(** [os.Exit(code)] *)
Definition os_Exit {A} (code : Z) : M A := fun world => (Exited code, world).

(** [fmt.Printf] and [fmt.Fprintf(os.Stderr, ...)], given the formatted
    string: one write to the stream. *)
Definition Printf (s : string) : M unit :=
  fun world =>
    (Returned tt,
     mkWorld (spawned world)
             (os_Stdout world ++ [list_byte_of_string s])
             (os_Stderr world)).

Definition Fprintf_Stderr (s : string) : M unit :=
  fun world =>
    (Returned tt,
     mkWorld (spawned world)
             (os_Stdout world)
             (os_Stderr world ++ [list_byte_of_string s])).

(** [for _, x := range l { body }] *)
Fixpoint for_range {A} (l : list A) (body : A -> M unit) : M unit :=
  match l with
  | [] => ret tt
  | x :: l' => body x ;; for_range l' body
  end.

Module exec.
Record Cmd := mkCmd
    { Path : string;
      Args : list string;
      Err : option error }.

  (** [filepath.Base(name) == name] on Unix. *)
Definition is_base (name : string) : bool :=
    negb (String.eqb name "") &&
    forallb (fun c => negb (Byte.eqb c "/"%byte)) (list_byte_of_string name).

  (** [exec.CommandContext(ctx, name, args...)] *)
Definition CommandContext (env : Env) (name : string) (args : list string)
    : Cmd :=
    if is_base name then
      let '(lp, err) := LookPath env name in
      mkCmd (if String.eqb lp "" then name else lp) (name :: args) err
    else mkCmd name (name :: args) None.

  (** [cmd.String()] *)
Definition Cmd_String (c : Cmd) : string :=
    match Err c with
    | Some _ => strings.Join (Args c) " "
    | None =>
        (Path c ++ String.concat "" (map (fun a => " " ++ a) (tl (Args c))))%string
    end.

  (** [cmd.Run()] with the deadline of the context, [cmd.Stdout = Stdout]
      and [cmd.Stderr = Stderr], after the processes [before]: the two
      writers after the run, whether a process was started, and the error.
      The output of the process is copied to the writers; the error of the
      process comes before an error of the copies. *)
Definition Cmd_Run {WO WE} `{Writer WO} `{Writer WE} (env : Env)
      (deadline : Z) (c : Cmd) (Stdout : WO) (Stderr : WE)
      (before : list (list string)) : WO * WE * bool * option error :=
    match Err c with
    | Some e => (Stdout, Stderr, false, Some e)
    | None =>
        let proc := start env deadline before (Args c) in
        let '(Stdout1, eo) := Copy Stdout (proc_stdout proc) in
        let '(Stderr1, ee) := Copy Stderr (proc_stderr proc) in
        (Stdout1, Stderr1, true,
         match proc_err proc with
         | Some e => Some e
         | None => match eo with Some e => Some e | None => ee end
         end)
    end.
End exec.
Export exec.

(** ** The program *)

Definition Minute : Z := 60 * 1000000000.

Section Program.
(** The flags [-f] and [-v] after [flag.Parse()]. *)
Variable force verbose : bool.
Variable env : Env.

Definition runCmd (ctx : Z) (name : string) (args : list string)
  : M (list byte) :=
  let cmd := CommandContext env name args in
  (if verbose then Printf ("[cmd] " ++ Cmd_String cmd ++ "
")%string else ret tt) ;;
  fun world =>
    let Stderr := newPrefixWriter "[cmd][stderr] " (os_File (os_Stderr world)) in
    let stdout : Buffer := [] in
    let '(world1, stdout1, err) :=
      if verbose then
        let Stdout :=
          mkMultiWriter
            (newPrefixWriter "[cmd][stdout] " (os_File (os_Stdout world)))
            stdout in
        let '(Stdout1, Stderr1, ran, err) :=
          Cmd_Run env ctx cmd Stdout Stderr (spawned world) in
        (mkWorld (if ran then spawned world ++ [Args cmd] else spawned world)
                 (received (w (first Stdout1)))
                 (received (w Stderr1)),
         second Stdout1, err)
      else
        let '(stdout1, Stderr1, ran, err) :=
          Cmd_Run env ctx cmd stdout Stderr (spawned world) in
        (mkWorld (if ran then spawned world ++ [Args cmd] else spawned world)
                 (os_Stdout world)
                 (received (w Stderr1)),
         stdout1, err) in
    match err with
    | Some e =>
        (Fprintf_Stderr
           ("[error] error running command " ++ Cmd_String cmd ++ ", " ++ e ++ "
")%string ;;
         os_Exit 1) world1
    | None => (Returned stdout1, world1)
    end.

Definition runCmdDefaultTimeout (name : string) (args : list string)
  : M (list byte) :=
  runCmd Minute name args.

Definition defaultBranchRegexp : list byte -> list (list byte) :=
  regexp.FindSubmatch "HEAD branch: ".

Definition getDefaultBranch : M string :=
  out <- runCmdDefaultTimeout "git" ["remote"; "show"; "origin"]%string ;;
  let bb := defaultBranchRegexp out in
  if negb (len bb =? 2) then
    Fprintf_Stderr "[error] failed to extract default branch" ;;
    os_Exit 1
  else ret (strings.TrimSpace (string_of_list_byte (nth 1 bb []))).

Definition getCurrentBranch : M string :=
  out <- runCmdDefaultTimeout "git" ["rev-parse"; "--abbrev-ref"; "HEAD"]%string ;;
  ret (string_of_list_byte (bytes.TrimSpace out)).

(** The body of the loop over the lines of the scanner in
    [getMergedBranches]. *)
Definition keep_branch (branches : list string) (token : list byte)
  : list string :=
  let line := strings.TrimSpace (string_of_list_byte token) in
  if negb (strings.HasPrefix line "* ") then branches ++ [line]
  else branches.

Definition getMergedBranches : M (list string) :=
  out <- runCmdDefaultTimeout "git" ["branch"; "--merged"]%string ;;
  let '(tokens, err) := bufio.ScanLines out in
  let branches := fold_left keep_branch tokens [] in
  match err with
  | Some e =>
      Fprintf_Stderr ("[error] scanner error " ++ e ++ "
")%string ;;
      ret branches
  | None => ret branches
  end.

Definition deleteBranch (branch : string) : M unit :=
  runCmdDefaultTimeout "git" ["branch"; "-d"; branch]%string ;; ret tt.

(** The line that [main] prints for a branch. *)
Definition report (branch : string) : string :=
  let msg := if negb force then "[would delete]"%string
             else "[deleting]"%string in
  (msg ++ " " ++ branch ++ "
")%string.

(** The body of the loop over the merged branches in [main]. *)
Definition report_and_delete (branch : string) : M unit :=
  Printf (report branch) ;;
  if force then deleteBranch branch else ret tt.

(** The message of [main] when the current branch is not the default
    branch. *)
Definition refusal (currentBranch defaultBranch : string) : string :=
  ("[error] Refusing to run `git-clean` without being on the default branch. Currently on branch "
   ++ currentBranch ++ ". Default branch " ++ defaultBranch ++ ".
")%string.

(** [main] from the return of [flag.Parse]: the values of the flags [-f]
    and [-v] are the variables [force] and [verbose]. *)
Definition main : M unit :=
  currentBranch <- getCurrentBranch ;;
  defaultBranch <- getDefaultBranch ;;
  (if negb (String.eqb currentBranch defaultBranch) then
     Fprintf_Stderr (refusal currentBranch defaultBranch) ;;
     os_Exit 1
   else ret tt) ;;
  mergedBranches <- getMergedBranches ;;
  for_range mergedBranches report_and_delete.

(** The exit status of the process and the world it leaves: 0 when [main]
    returns. *)
Definition run (world : World) : Z * World :=
  match main world with
  | (Returned _, world1) => (0, world1)
  | (Exited code, world1) => (code, world1)
  end.
End Program.

(** Standard output after a command: it has grown, and in verbose mode
    only. *)
Definition grown (verbose : bool) (world world' : World) : Prop :=
  exists outs, os_Stdout world' = os_Stdout world ++ outs /\
               (verbose = false -> outs = []).

(** The argument vectors of the commands of the program. *)
Definition git_rev_parse : list string :=
  ["git"; "rev-parse"; "--abbrev-ref"; "HEAD"]%string.

Definition git_remote_show : list string :=
  ["git"; "remote"; "show"; "origin"]%string.

Definition git_branch_merged : list string :=
  ["git"; "branch"; "--merged"]%string.

Definition git_branch_d (branch : string) : list string :=
  ["git"; "branch"; "-d"; branch]%string.

Definition bytes_of (s : string) : list byte := list_byte_of_string s.

(** ** Scenarios *)

(** A repository in which [git] is found, [rev-parse] prints [current],
    [remote show origin] reports the default branch [main] in two reads and
    warns on standard error, [branch --merged] prints [listing], [branch -d]
    succeeds, and every other command fails. *)
Definition scenario (current : string) (listing : list byte) : Env :=
  mkEnv
    (fun name => (("/usr/bin/" ++ name)%string, None))
    (fun _ _ argv =>
       match argv with
       | ["git"; "rev-parse"; "--abbrev-ref"; "HEAD"]%string =>
           mkProcess [bytes_of (current ++ "
")] [] None
       | ["git"; "remote"; "show"; "origin"]%string =>
           mkProcess [bytes_of "* remote origin
  Fetch URL: git@example.com:repo.git
  HEAD bra"; bytes_of "nch: main
  Remote branches:
"] [bytes_of "warning: redirecting
"] None
       | ["git"; "branch"; "--merged"]%string => mkProcess [listing] [] None
       | ["git"; "branch"; "-d"; branch]%string =>
           mkProcess [bytes_of ("Deleted branch " ++ branch ++ ".
")] [] None
       | _ => mkProcess [] [] (Some "exit status 1"%string)
       end).

(** A destination that accepts three writes and then takes one byte of every
    write and fails. *)
Definition full_after_three : Sink :=
  mkSink [] (fun h p => if (len h <? 3) then (len p, None)
                        else (Z.min 1 (len p), Some "no space left"%string)).

(** The same repository with a branch [kept] that [branch -d] refuses to
    delete. *)
Definition scenario_refusing (kept : string) (listing : list byte) : Env :=
  mkEnv
    (LookPath (scenario "main" listing))
    (fun ctx before argv =>
       match argv with
       | ["git"; "branch"; "-d"; branch]%string =>
           if String.eqb branch kept then
             mkProcess [] [bytes_of "error: the branch is not fully merged.
"] (Some "exit status 1"%string)
           else start (scenario "main" listing) ctx before argv
       | _ => start (scenario "main" listing) ctx before argv
       end).

(** The world before the program has done anything. *)
Definition world0 : World := mkWorld [] [] [].

(** The listing of the orchestrator scenario. *)
Definition listing_main_a_b : list byte :=
  bytes_of "* main
feature-a
feature-b
".

(** A listing with a blank line. *)
Definition listing_with_blank : list byte :=
  bytes_of "* main
feature-a

feature-b
".

(** A listing whose second line has 65536 bytes before its newline. *)
Definition listing_too_long : list byte :=
  bytes_of "feature-a
" ++ repeat "x"%byte (Z.to_nat bufio.MaxScanTokenSize) ++ bytes_of "
feature-b
".

(** A listing with a branch that is checked out in a linked worktree, which
    [git branch] marks with a plus sign. *)
Definition listing_with_worktree : list byte :=
  bytes_of "* main
+ feature-a
".

(** The slices are Go slices: none is longer than the largest [int]. *)
Definition fits (chunks : list (list byte)) : Prop :=
  Forall (fun c => len c <= max_int) chunks.

(** The line that [runCmd] prints before a command in verbose mode, and the
    line that it prints when the command fails. *)
Definition echo_line (cmd : Cmd) : string :=
  ("[cmd] " ++ Cmd_String cmd ++ "
")%string.

Definition error_line (cmd : Cmd) (e : error) : string :=
  ("[error] error running command " ++ Cmd_String cmd ++ ", " ++ e ++ "
")%string.

(** The effect on the world of a step that runs the one command [argv]
    from [world] and ends in [r]: standard output has grown, in verbose mode
    only; a step that returns has started the command, and a step that does
    not return exits with status 1, with or without having started it. *)
Definition step_of {A} (verbose : bool) (argv : list string)
    (world : World) (r : outcome A * World) : Prop :=
  grown verbose world (snd r) /\
  match fst r with
  | Returned _ => spawned (snd r) = spawned world ++ [argv]
  | Exited code =>
      code = 1 /\
      (spawned (snd r) = spawned world \/
       spawned (snd r) = spawned world ++ [argv])
  end.

(** The candidate does not begin with the marker of the current branch. *)
Definition unmarked (branch : string) : Prop :=
  strings.HasPrefix branch "* " = false.

(** The shape of every run of [main] from [world] that ends in [r]: the
    first [j] of the three queries were started, then the first [kr] of the
    candidates [cs] were reported and the first [kd] of them deleted; a run
    that returns has done all of it, and a run that does not return exits
    with status 1. *)
Definition main_shape (force verbose : bool) (world : World)
    (r : outcome unit * World) : Prop :=
  exists j cs kr kd outs,
    (j <= 3)%nat /\
    spawned (snd r) =
      spawned world ++
      firstn j [git_rev_parse; git_remote_show; git_branch_merged] ++
      map git_branch_d (firstn kd cs) /\
    Forall unmarked cs /\
    (kd <= kr <= List.length cs)%nat /\
    (force = false -> kd = 0%nat) /\
    ((j < 3)%nat -> kr = 0%nat) /\
    os_Stdout (snd r) = os_Stdout world ++ outs /\
    (verbose = false ->
     outs = map (fun b => bytes_of (report force b)) (firstn kr cs)) /\
    match fst r with
    | Returned _ =>
        j = 3%nat /\ kr = List.length cs /\
        (force = true -> kd = List.length cs)
    | Exited code => code = 1
    end.

(** The candidates that the loop of [getMergedBranches] keeps from the
    listing [out]. *)
Definition candidates_of (out : list byte) : list string :=
  fold_left keep_branch (fst (bufio.ScanLines out)) [].

(** White space only: a sequence of the encodings that [unicode.IsSpace]
    accepts. *)
Inductive white : list byte -> Prop :=
| white_nil : white []
| white_1 a s : isSpace1 a = true -> white s -> white (a :: s)
| white_2 a b s : isSpace2 a b = true -> white s -> white (a :: b :: s)
| white_3 a b c s :
    isSpace3 a b c = true -> white s -> white (a :: b :: c :: s).

(** A listing with a line of a space, a tab, a no-break space and a carriage
    return. *)
Definition listing_with_spaces : list byte :=
  bytes_of "* main
feature-a
" ++ [x20; x09; xc2; xa0; x0d; x0a] ++ bytes_of "feature-b
".

(** * Proofs *)

Unset Implicit Arguments.

(** ** The definitions on small inputs *)

Example spans_example :
  spans (bytes_of "ab
cd

ef") = [bytes_of "ab
"; bytes_of "cd
"; bytes_of "
"; bytes_of "ef"].
Proof. reflexivity. Qed.

Example Write_example :
  let '(pw, r) := Write (newPrefixWriter "> " ([] : Buffer)) (bytes_of "ab
cd") in
  (string_of_list_byte (w pw), started pw, r) =
  ("> ab
> cd"%string, true, (5, None)).
Proof. reflexivity. Qed.

Example Write_empty_example :
  Write (newPrefixWriter "> " (os_File [])) [] =
  (newPrefixWriter "> " (os_File []), (0, None)).
Proof. reflexivity. Qed.

Example TrimSpace_example :
  bytes.TrimSpace ([xc2; xa0] ++ bytes_of "	 main branch " ++ [x0d; x0a; xe2; x80; x83]) =
  bytes_of "main branch".
Proof. reflexivity. Qed.

Example TrimSpace_blank_example :
  strings.TrimSpace "  	 " = ""%string.
Proof. reflexivity. Qed.

Example ScanLines_example :
  bufio.ScanLines (bytes_of "* main" ++ [x0d; x0a] ++ bytes_of "  a

b") = ([bytes_of "* main"; bytes_of "  a"; []; bytes_of "b"], None).
Proof. reflexivity. Qed.

Example FindSubmatch_example :
  regexp.FindSubmatch "HEAD branch: " (bytes_of "  Push  URL: x
  HEAD branch: main
  Remote branch:
") = [bytes_of "HEAD branch: main"; bytes_of "main"].
Proof. reflexivity. Qed.

Example FindSubmatch_none_example :
  regexp.FindSubmatch "HEAD branch: " (bytes_of "fatal: no remote
") = [].
Proof. reflexivity. Qed.

Example Cmd_String_example :
  Cmd_String (CommandContext (scenario "main" []) "git" ["branch"; "-d"; "x"]%string) =
  "/usr/bin/git branch -d x"%string.
Proof. reflexivity. Qed.

Example run_dry_example :
  let r := run false false (scenario "main" listing_main_a_b) world0 in
  (fst r, spawned (snd r), map string_of_list_byte (os_Stdout (snd r))) =
  (0, [git_rev_parse; git_remote_show; git_branch_merged],
   ["[would delete] feature-a
"; "[would delete] feature-b
"]%string).
Proof. vm_compute. reflexivity. Qed.

(** ** Newline search and spans *)

Lemma len_app {A} (a b : list A) : len (a ++ b) = len a + len b.
Proof. unfold len. rewrite length_app. lia. Qed.

Lemma len_nonneg {A} (a : list A) : 0 <= len a.
Proof. unfold len. lia. Qed.

Lemma has_newline_app a b :
  has_newline (a ++ b) = has_newline a || has_newline b.
Proof. apply existsb_app. Qed.

Lemma scanNewline_none rest i :
  0 <= i -> scanNewline rest i = -1 -> has_newline rest = false.
Proof.
  revert i; induction rest as [|c rest IH]; intros i Hi Hs; simpl in *.
  - reflexivity.
  - destruct (Byte.eqb c newline); [lia|].
    simpl. apply (IH (i + 1)); [lia|assumption].
Qed.

Lemma scanNewline_found rest i :
  scanNewline rest i <> -1 ->
  exists pre post,
    rest = pre ++ newline :: post /\ has_newline pre = false /\
    scanNewline rest i = i + len pre.
Proof.
  revert i; induction rest as [|c rest IH]; intros i Hs; simpl in *.
  - congruence.
  - destruct (Byte.eqb c newline) eqn:E.
    + apply Byte.byte_dec_bl in E; subst c.
      exists [], rest. repeat split. unfold len; simpl; lia.
    + destruct (IH (i + 1) Hs) as (pre & post & -> & Hpre & Hidx).
      exists (c :: pre), post. repeat split.
      * simpl. rewrite E. exact Hpre.
      * rewrite Hidx. unfold len; cbn [List.length]. lia.
Qed.

Lemma spans_partial s :
  s <> [] -> has_newline s = false -> spans s = [s].
Proof.
  induction s as [|c s IH]; intros Hne Hnl; [congruence|].
  simpl in *. apply orb_false_iff in Hnl as [Hc Hs]. rewrite Hc.
  destruct s as [|d s]; [reflexivity|].
  rewrite IH by (congruence || assumption). reflexivity.
Qed.

Lemma spans_line pre post :
  has_newline pre = false ->
  spans (pre ++ newline :: post) = (pre ++ [newline]) :: spans post.
Proof.
  induction pre as [|c pre IH]; intros Hnl; simpl in *.
  - reflexivity.
  - apply orb_false_iff in Hnl as [Hc Hs]. rewrite Hc.
    rewrite IH by assumption. reflexivity.
Qed.

Lemma has_newline_line pre : has_newline (pre ++ [newline]) = true.
Proof.
  rewrite has_newline_app. simpl. apply orb_true_r.
Qed.

(** ** The loop of [Write] follows the span-by-span rule *)

Section WriteRefines.
Context {W : Type} {HW : Writer W}.

Lemma Write_from_step (pw : prefixWriter W) p start :
  Write_from pw p start =
  if Z_lt_dec start (len p) then
    let newlineIdx := findNewline p start in
    if Z.eq_dec newlineIdx (-1) then
      let '(pw1, (n, err)) := writeOnce pw (slice_from p start) in
      (match err with
       | None => set_started pw1 true
       | Some _ => pw1
       end, (int_wrap (start + n), err))
    else
      match writeOnce pw (slice p start (newlineIdx + 1)) with
      | (pw1, (n, Some e)) => (pw1, (int_wrap (start + n), Some e))
      | (pw1, (n, None)) =>
          Write_from (set_started pw1 false) p (newlineIdx + 1)
      end
  else (pw, (len p, None)).
Proof.
  rewrite Write_from_equation_1.
  destruct (Z_lt_dec start (len p)); simpl; [|reflexivity].
  destruct (Z.eq_dec (findNewline p start) (-1)); simpl; reflexivity.
Qed.

Lemma Write_from_spans (pw : prefixWriter W) p start :
  0 <= start <= len p ->
  Write_from pw p start =
  write_spans (len p) pw start (spans (slice_from p start)).
Proof.
  remember (Z.to_nat (len p - start)) as k eqn:Hk.
  revert pw start Hk.
  induction k as [k IH] using lt_wf_ind; intros pw start Hk Hr.
  rewrite Write_from_step.
  destruct (Z_lt_dec start (len p)) as [Hlt|Hge].
  - cbv zeta.
    assert (Hlen : (List.length (slice_from p start) = List.length p - Z.to_nat start)%nat)
      by (unfold slice_from; apply length_skipn).
    destruct (Z.eq_dec (findNewline p start) (-1)) as [Hn|Hn].
    + apply scanNewline_none in Hn; [|lia].
      rewrite spans_partial; [|intros E; rewrite E in Hlen; unfold len in *; simpl in Hlen; lia|exact Hn].
      simpl. rewrite Hn. reflexivity.
    + unfold findNewline in *.
      destruct (scanNewline_found _ _ Hn) as (pre & post & Hrest & Hpre & Hidx).
      rewrite Hidx.
      assert (Hs1 : slice p start (start + len pre + 1) = pre ++ [newline]).
      { unfold slice. fold (slice_from p start). rewrite Hrest.
        replace (Z.to_nat (start + len pre + 1 - start)) with (List.length pre + 1)%nat
          by (unfold len; lia).
        rewrite firstn_app, firstn_all2 by lia.
        replace (List.length pre + 1 - List.length pre)%nat with 1%nat by lia.
        reflexivity. }
      assert (Hs2 : slice_from p (start + len pre + 1) = post).
      { unfold slice_from.
        replace (Z.to_nat (start + len pre + 1)) with ((List.length pre + 1) + Z.to_nat start)%nat
          by (unfold len; lia).
        rewrite <- skipn_skipn. fold (slice_from p start). rewrite Hrest.
        rewrite skipn_app, skipn_all2 by lia.
        replace (List.length pre + 1 - List.length pre)%nat with 1%nat by lia.
        reflexivity. }
      rewrite Hs1, Hrest, spans_line by assumption.
      simpl write_spans. rewrite has_newline_line.
      destruct (writeOnce pw (pre ++ [newline])) as [pw1 [n [e|]]]; [reflexivity|].
      assert (Hl : len p = start + len pre + 1 + len post).
      { rewrite Hrest in Hlen. rewrite length_app in Hlen. simpl in Hlen.
        unfold len. lia. }
      rewrite (IH (Z.to_nat (len p - (start + len pre + 1)))).
      * rewrite Hs2, len_app. change (len [newline]) with 1. f_equal. lia.
      * pose proof (len_nonneg pre). lia.
      * reflexivity.
      * pose proof (len_nonneg pre). pose proof (len_nonneg post). lia.
  - assert (start = len p) by lia. subst start.
    unfold slice_from. rewrite skipn_all2 by (unfold len; lia).
    reflexivity.
Qed.

Lemma Write_spans (pw : prefixWriter W) p :
  Write pw p = write_spans (len p) pw 0 (spans p).
Proof.
  unfold Write at 1, prefixWriter_Writer.
  rewrite Write_from_spans by (pose proof (len_nonneg p); lia).
  reflexivity.
Qed.
End WriteRefines.

(** ** Induction along the spans of a slice *)

Lemma first_newline q :
  has_newline q = false \/
  exists pre post, q = pre ++ newline :: post /\ has_newline pre = false.
Proof.
  induction q as [|c q IH]; [left; reflexivity|].
  destruct (Byte.eqb c newline) eqn:E.
  - right. apply Byte.byte_dec_bl in E; subst c. exists [], q. split; reflexivity.
  - destruct IH as [IH|(pre & post & -> & Hpre)].
    + left. simpl. rewrite E. exact IH.
    + right. exists (c :: pre), post. split; [reflexivity|].
      simpl. rewrite E. exact Hpre.
Qed.

Lemma spans_ind (P : list byte -> Prop) :
  P [] ->
  (forall s, s <> [] -> has_newline s = false -> P s) ->
  (forall pre post, has_newline pre = false -> P post ->
                    P (pre ++ newline :: post)) ->
  forall q, P q.
Proof.
  intros Hnil Hpart Hline q.
  remember (List.length q) as k eqn:Hk. revert q Hk.
  induction k as [k IH] using lt_wf_ind; intros q Hk.
  destruct (first_newline q) as [Hn|(pre & post & -> & Hpre)].
  - destruct q as [|c q]; [exact Hnil|]. apply Hpart; [discriminate|exact Hn].
  - apply Hline; [exact Hpre|].
    apply (IH (List.length post)); [|reflexivity].
    subst k. rewrite length_app. simpl. lia.
Qed.

Lemma concat_spans q : List.concat (spans q) = q.
Proof.
  induction q as [|pre Hne Hn|pre post Hpre IH] using spans_ind.
  - reflexivity.
  - rewrite spans_partial by assumption. simpl. apply app_nil_r.
  - rewrite spans_line by assumption. simpl. rewrite IH, <- app_assoc. reflexivity.
Qed.

(** Lines that are all complete, or all complete but the last, are the spans
    of their concatenation. *)
Lemma spans_complete ls :
  Forall complete_line ls -> spans (List.concat ls) = ls.
Proof.
  induction 1 as [|l ls (body & -> & Hb) _ IH]; [reflexivity|].
  simpl. rewrite <- app_assoc. simpl. rewrite spans_line, IH by assumption.
  reflexivity.
Qed.

Lemma spans_complete_partial ls l :
  Forall complete_line ls -> partial_line l -> spans (List.concat (ls ++ [l])) = ls ++ [l].
Proof.
  intros Hls [Hne Hn].
  induction Hls as [|l0 ls (body & -> & Hb) _ IH]; simpl.
  - rewrite app_nil_r. apply spans_partial; assumption.
  - rewrite <- app_assoc. simpl. rewrite spans_line, IH by assumption.
    reflexivity.
Qed.

Lemma grouped_spans midline groups :
  grouped midline groups ->
  map (@List.concat byte) groups = spans (List.concat (map (@List.concat byte) groups)).
Proof.
  destruct midline; simpl.
  - intros (gs & g & -> & Hgs & Hg).
    rewrite map_app. simpl. symmetry. apply spans_complete_partial; assumption.
  - intros H. symmetry. apply spans_complete. exact H.
Qed.

(** ** The prefix writer over a sink *)

Lemma writeOnce_accept (pw pw1 : prefixWriter Sink) s n :
  writeOnce pw s = (pw1, (n, None)) ->
  pw1 = set_w pw
          (mkSink (received (w pw) ++
                     (if started pw then [s]
                      else [list_byte_of_string (prefix pw); s]))
                  (respond (w pw))).
Proof.
  unfold writeOnce, Write, Sink_Writer.
  destruct (started pw); simpl.
  - destruct (respond _ _ s) as [k e]. intros [= <- _ _]. reflexivity.
  - destruct (respond _ _ (list_byte_of_string _)) as [k [e|]]; [discriminate|].
    simpl. destruct (respond _ _ s) as [k' e']. intros [= <- _ _].
    rewrite <- app_assoc. reflexivity.
Qed.

Lemma complete_after_partial a s :
  partial_line a -> complete_line s -> complete_line (a ++ s).
Proof.
  intros [_ Ha] (body & -> & Hb). exists (a ++ body). split.
  - apply app_assoc.
  - rewrite has_newline_app, Ha, Hb. reflexivity.
Qed.

Lemma partial_after_partial a s :
  partial_line a -> has_newline s = false -> partial_line (a ++ s).
Proof.
  intros [Hne Ha] Hs. split.
  - destruct a; [congruence|discriminate].
  - rewrite has_newline_app, Ha, Hs. reflexivity.
Qed.

Lemma with_prefix_snoc pfx groups g :
  with_prefix pfx (groups ++ [g]) = with_prefix pfx groups ++ pfx :: g.
Proof.
  unfold with_prefix. rewrite flat_map_app. simpl. rewrite app_nil_r. reflexivity.
Qed.

Lemma concat_groups_snoc (groups : list (list (list byte))) g :
  List.concat (map (@List.concat byte) (groups ++ [g])) =
  List.concat (map (@List.concat byte) groups) ++ List.concat g.
Proof.
  rewrite map_app, concat_app. simpl. rewrite app_nil_r. reflexivity.
Qed.

Lemma writeOnce_invariant before data (pw pw1 : prefixWriter Sink) s n :
  line_invariant before data pw ->
  (if has_newline s then complete_line s else s <> []) ->
  writeOnce pw s = (pw1, (n, None)) ->
  line_invariant before (data ++ s) (set_started pw1 (negb (has_newline s))).
Proof.
  intros (groups & Hrec & Hdata & Hgr) Hs Hw.
  apply writeOnce_accept in Hw. subst pw1.
  unfold line_invariant. cbn [set_started set_w started prefix w received].
  destruct (started pw) eqn:Hst; cbn [grouped] in Hgr.
  - destruct Hgr as (gs & g & -> & Hgs & Hg).
    exists (gs ++ [g ++ [s]]). split; [|split].
    + rewrite Hrec, !with_prefix_snoc, <- !app_assoc. reflexivity.
    + rewrite concat_groups_snoc in Hdata. subst data.
      rewrite concat_groups_snoc, concat_app. simpl.
      rewrite app_nil_r, app_assoc. reflexivity.
    + assert (Hc : List.concat (g ++ [s]) = List.concat g ++ s)
        by (rewrite concat_app; simpl; rewrite app_nil_r; reflexivity).
      destruct (has_newline s) eqn:Hn; cbn [negb grouped].
      * rewrite map_app. apply Forall_app; split; [exact Hgs|].
        constructor; [|constructor]. rewrite Hc.
        apply complete_after_partial; assumption.
      * exists gs, (g ++ [s]). repeat split; try assumption.
        -- rewrite Hc. destruct Hg as [Hne _]. destruct (List.concat g); [congruence|discriminate].
        -- rewrite Hc. apply partial_after_partial; assumption.
  - exists (groups ++ [[s]]). split; [|split].
    + rewrite Hrec, with_prefix_snoc, <- app_assoc. reflexivity.
    + rewrite concat_groups_snoc, Hdata. simpl. rewrite app_nil_r. reflexivity.
    + destruct (has_newline s) eqn:Hn; cbn [negb grouped].
      * rewrite map_app. apply Forall_app; split; [exact Hgr|].
        constructor; [|constructor]. simpl. rewrite app_nil_r. exact Hs.
      * exists groups, [s]. simpl. rewrite app_nil_r.
        repeat split; assumption.
Qed.

Lemma write_spans_invariant before q :
  forall data (pw pw' : prefixWriter Sink) total start n,
    line_invariant before data pw ->
    write_spans total pw start (spans q) = (pw', (n, None)) ->
    line_invariant before (data ++ q) pw'.
Proof.
  induction q as [|s Hne Hn|pre post Hpre IH] using spans_ind;
    intros data pw pw' total start n Hinv Hw.
  - simpl in Hw. injection Hw as <- _. rewrite app_nil_r. exact Hinv.
  - rewrite spans_partial in Hw by assumption. simpl in Hw. rewrite Hn in Hw.
    destruct (writeOnce pw s) as [pw1 [k [e|]]] eqn:Hw1; [discriminate|].
    injection Hw as <- _.
    replace true with (negb (has_newline s)) by (rewrite Hn; reflexivity).
    eapply writeOnce_invariant; [exact Hinv| |exact Hw1].
    rewrite Hn. exact Hne.
  - rewrite spans_line in Hw by assumption. simpl in Hw.
    rewrite has_newline_line in Hw.
    destruct (writeOnce pw (pre ++ [newline])) as [pw1 [k [e|]]] eqn:Hw1;
      [discriminate|].
    replace (pre ++ newline :: post) with ((pre ++ [newline]) ++ post)
      by (rewrite <- app_assoc; reflexivity).
    rewrite app_assoc. eapply IH; [|exact Hw].
    replace false with (negb (has_newline (pre ++ [newline])))
      by (rewrite has_newline_line; reflexivity).
    eapply writeOnce_invariant; [exact Hinv| |exact Hw1].
    rewrite has_newline_line. exists pre. split; [reflexivity|assumption].
Qed.

Lemma Write_invariant before data (pw pw' : prefixWriter Sink) p n :
  line_invariant before data pw ->
  Write pw p = (pw', (n, None)) ->
  line_invariant before (data ++ p) pw'.
Proof.
  intros Hinv Hw. rewrite Write_spans in Hw.
  eapply write_spans_invariant; eassumption.
Qed.

Lemma WriteAll_invariant before chunks :
  forall data (pw : prefixWriter Sink),
    line_invariant before data pw ->
    Forall (fun r => snd r = None) (snd (WriteAll pw chunks)) ->
    line_invariant before (data ++ List.concat chunks) (fst (WriteAll pw chunks)).
Proof.
  induction chunks as [|c cs IH]; intros data pw Hinv Hok; simpl in *.
  - rewrite app_nil_r. exact Hinv.
  - destruct (Write pw c) as [pw1 [n e]] eqn:Hw.
    destruct (WriteAll pw1 cs) as [pw2 rs] eqn:Hws.
    simpl in *. inversion Hok as [|? ? He Hrs]; subst. simpl in He. subst e.
    rewrite app_assoc.
    specialize (IH (data ++ c) pw1). rewrite Hws in IH. apply IH; [|exact Hrs].
    eapply Write_invariant; eassumption.
Qed.

Lemma fresh_invariant pfx (s : Sink) :
  line_invariant (received s) [] (newPrefixWriter pfx s).
Proof.
  exists []. simpl. rewrite app_nil_r. repeat split. constructor.
Qed.

Section PrefixKept.
Context {W : Type} {HW : Writer W}.

Lemma writeOnce_prefix (pw : prefixWriter W) s :
  prefix (fst (writeOnce pw s)) = prefix pw.
Proof.
  unfold writeOnce.
  destruct (negb (started pw)).
  - destruct (Write (w pw) _) as [w1 [k [e|]]]; [reflexivity|].
    destruct (Write w1 s) as [w2 r]. reflexivity.
  - destruct (Write (w pw) s) as [w2 r]. reflexivity.
Qed.

Lemma write_spans_prefix ss :
  forall (pw : prefixWriter W) total start,
    prefix (fst (write_spans total pw start ss)) = prefix pw.
Proof.
  induction ss as [|s ss IH]; intros pw total start; simpl; [reflexivity|].
  pose proof (writeOnce_prefix pw s) as Hp.
  destruct (writeOnce pw s) as [pw1 [k [e|]]]; simpl in Hp;
    destruct (has_newline s); simpl; try assumption.
  rewrite IH. exact Hp.
Qed.

Lemma WriteAll_prefix chunks :
  forall pw : prefixWriter W, prefix (fst (WriteAll pw chunks)) = prefix pw.
Proof.
  induction chunks as [|c cs IH]; intros pw; simpl; [reflexivity|].
  pose proof (write_spans_prefix (spans c) pw (len c) 0) as Hp.
  rewrite <- Write_spans in Hp.
  destruct (Write pw c) as [pw1 r]. specialize (IH pw1).
  destruct (WriteAll pw1 cs) as [pw2 rs]. simpl in *. congruence.
Qed.
End PrefixKept.

(** ** A sink that accepts every write *)

Lemma accepting_writeOnce (pw : prefixWriter Sink) s :
  accepting (w pw) ->
  exists pw1, writeOnce pw s = (pw1, (len s, None)) /\
              respond (w pw1) = respond (w pw).
Proof.
  intros Hacc. unfold writeOnce, Write, Sink_Writer.
  destruct (started pw); simpl; rewrite ?Hacc; simpl; rewrite ?Hacc;
    eexists; split; reflexivity.
Qed.

Lemma accepting_write_spans ss :
  forall (pw : prefixWriter Sink) total start,
    accepting (w pw) ->
    exists pw' n, write_spans total pw start ss = (pw', (n, None)) /\
                  respond (w pw') = respond (w pw).
Proof.
  induction ss as [|s ss IH]; intros pw total start Hacc; simpl.
  - eexists _, _. split; reflexivity.
  - destruct (accepting_writeOnce pw s Hacc) as (pw1 & -> & Hr).
    destruct (has_newline s).
    + destruct (IH (set_started pw1 false) total (start + len s)) as (pw' & n & -> & Hr').
      * unfold accepting. simpl. rewrite Hr. exact Hacc.
      * eexists _, _. split; [reflexivity|]. simpl in Hr'. congruence.
    + eexists _, _. split; [reflexivity|]. exact Hr.
Qed.

Lemma accepting_Write (pw : prefixWriter Sink) p :
  accepting (w pw) ->
  exists pw' n, Write pw p = (pw', (n, None)) /\ accepting (w pw').
Proof.
  intros Hacc. rewrite Write_spans.
  destruct (accepting_write_spans (spans p) pw (len p) 0 Hacc)
    as (pw' & n & -> & Hr).
  eexists _, _. split; [reflexivity|]. unfold accepting. rewrite Hr. exact Hacc.
Qed.

Lemma accepting_WriteAll chunks :
  forall pw : prefixWriter Sink,
    accepting (w pw) ->
    Forall (fun r => snd r = None) (snd (WriteAll pw chunks)).
Proof.
  induction chunks as [|c cs IH]; intros pw Hacc; simpl; [constructor|].
  destruct (accepting_Write pw c Hacc) as (pw1 & n & -> & Hacc1).
  specialize (IH pw1 Hacc1).
  destruct (WriteAll pw1 cs) as [pw2 rs]. simpl in *.
  constructor; [reflexivity|exact IH].
Qed.

(** The bytes a destination holds when every line was preceded by the
    prefix. *)
Lemma concat_with_prefix pfx groups :
  List.concat (with_prefix pfx groups) =
  flat_map (fun l => pfx ++ l) (map (@List.concat byte) groups).
Proof.
  induction groups as [|g groups IH]; [reflexivity|].
  unfold with_prefix in *. simpl. rewrite concat_app, IH. simpl.
  rewrite <- app_assoc. reflexivity.
Qed.

Lemma invariant_bytes before data (pw : prefixWriter Sink) :
  line_invariant before data pw ->
  List.concat (received (w pw)) =
  List.concat before ++
  flat_map (fun l => list_byte_of_string (prefix pw) ++ l) (spans data).
Proof.
  intros (groups & -> & <- & Hgr).
  rewrite concat_app, concat_with_prefix.
  rewrite (grouped_spans _ _ Hgr) at 1. reflexivity.
Qed.

(** ** The count and the error of a write *)

Lemma int_wrap_small z : - 2 ^ 63 <= z <= max_int -> int_wrap z = z.
Proof.
  unfold int_wrap, max_int. intros Hz.
  rewrite Z.mod_small by lia. lia.
Qed.

Lemma all_accepted_app respond ws1 :
  forall h ws2,
    all_accepted respond h ws1 ->
    all_accepted respond (h ++ ws1) ws2 ->
    all_accepted respond h (ws1 ++ ws2).
Proof.
  induction ws1 as [|x ws1 IH]; intros h ws2 H1 H2; simpl in *.
  - rewrite app_nil_r in H2. exact H2.
  - destruct H1 as [Hx H1]. split; [exact Hx|].
    apply IH; [exact H1|]. rewrite <- app_assoc. exact H2.
Qed.

Lemma writeOnce_Sink (pw pw1 : prefixWriter Sink) s k err :
  writeOnce pw s = (pw1, (k, err)) ->
  let pfx := list_byte_of_string (prefix pw) in
  let first := if started pw then [s] else [pfx; s] in
  prefix pw1 = prefix pw /\ started pw1 = started pw /\
  respond (w pw1) = respond (w pw) /\
  match err with
  | None =>
      received (w pw1) = received (w pw) ++ first /\
      all_accepted (respond (w pw)) (received (w pw)) first /\
      respond (w pw)
        (if started pw then received (w pw) else received (w pw) ++ [pfx]) s =
      (k, None)
  | Some e =>
      rejected (respond (w pw)) pfx (started pw) (received (w pw)) s k e
               (received (w pw1))
  end.
Proof.
  unfold writeOnce, Write, Sink_Writer, rejected.
  destruct (started pw) eqn:Hst; simpl.
  - destruct (respond _ _ s) as [k' e'] eqn:Hr. intros [= <- <- <-]. simpl.
    split; [reflexivity|]. split; [exact Hst|]. split; [reflexivity|].
    destruct e' as [e|].
    + right. split; [discriminate|]. split; reflexivity.
    + split; [reflexivity|]. split; [split; [reflexivity|exact I]|].
      reflexivity.
  - destruct (respond _ _ (list_byte_of_string _)) as [k0 [e0|]] eqn:Hp.
    + intros [= <- <- <-]. simpl.
      split; [reflexivity|]. split; [exact Hst|]. split; [reflexivity|].
      left. repeat split.
    + simpl. destruct (respond _ _ s) as [k' e'] eqn:Hr. intros [= <- <- <-].
      simpl.
      split; [reflexivity|]. split; [exact Hst|]. split; [reflexivity|].
      destruct e' as [e|].
      * right. split; [reflexivity|]. split; reflexivity.
      * split; [rewrite <- app_assoc; reflexivity|].
        split; [repeat split|].
        reflexivity.
Qed.

Lemma write_spans_result q :
  forall (pw pw' : prefixWriter Sink) start total n err,
    obeys_contract (w pw) ->
    0 <= start -> start + len q = total -> total <= max_int ->
    write_spans total pw start (spans q) = (pw', (n, err)) ->
    let pfx := list_byte_of_string (prefix pw) in
    match err with
    | None =>
        n = total /\
        received (w pw') =
          received (w pw) ++ emitted pfx (started pw) (spans q) /\
        started pw' = started_after (started pw) (spans q)
    | Some e =>
        exists done s rest k,
          spans q = done ++ s :: rest /\
          all_accepted (respond (w pw)) (received (w pw))
                       (emitted pfx (started pw) done) /\
          rejected (respond (w pw)) pfx
                   (match done with [] => started pw | _ :: _ => false end)
                   (received (w pw) ++ emitted pfx (started pw) done)
                   s k e (received (w pw')) /\
          0 <= k <= len s /\
          n = start + len (List.concat done) + k
    end.
Proof.
  induction q as [|s Hne Hn|pre post Hpre IH] using spans_ind;
    intros pw pw' start total n err Hc Hstart Htotal Hmax Hw pfx.
  - simpl in Hw. injection Hw as <- <- <-. simpl.
    rewrite app_nil_r. repeat split; reflexivity.
  - rewrite spans_partial in * by assumption. simpl in Hw. rewrite Hn in Hw.
    destruct (writeOnce pw s) as [pw1 [k e1]] eqn:Hw1.
    apply writeOnce_Sink in Hw1. destruct Hw1 as (Hp & Hs & Hr & Hw1).
    injection Hw as Hpw' <- <-. fold pfx in Hw1.
    destruct e1 as [e|].
    + subst pw'. exists [], s, [], k. simpl. rewrite app_nil_r.
      assert (Hk : 0 <= k <= len s).
      { destruct Hw1 as [(_ & _ & -> & _)|(_ & Hk & _)].
        - pose proof (len_nonneg s). lia.
        - match type of Hk with respond _ ?h _ = _ =>
            pose proof (proj1 (Hc h s)) as Hb end.
          rewrite Hk in Hb. exact Hb. }
      repeat split; try exact Hw1; try lia.
      change (len (@nil byte)) with 0.
      rewrite int_wrap_small; [lia|]. unfold max_int in *. lia.
    + destruct Hw1 as (Hrec & Hacc & Hk).
      match type of Hk with respond _ ?h _ = _ =>
        pose proof (proj2 (Hc h s)) as Hlen end.
      rewrite Hk in Hlen.
      simpl in Hlen. specialize (Hlen eq_refl). subst k pw'.
      simpl. rewrite app_nil_r.
      split; [|split; [exact Hrec|unfold started_after; simpl; rewrite Hn; reflexivity]].
      pose proof (len_nonneg s).
      rewrite int_wrap_small; [lia|]. unfold max_int in *. lia.
  - rewrite spans_line in * by assumption. simpl in Hw.
    rewrite has_newline_line in Hw.
    destruct (writeOnce pw (pre ++ [newline])) as [pw1 [k e1]] eqn:Hw1.
    apply writeOnce_Sink in Hw1. destruct Hw1 as (Hp & Hs & Hr & Hw1).
    fold pfx in Hw1.
    assert (Hl : len (pre ++ newline :: post) = len (pre ++ [newline]) + len post).
    { rewrite !len_app. unfold len. simpl. lia. }
    pose proof (len_nonneg post) as Hpost.
    pose proof (len_nonneg (pre ++ [newline])) as Hline.
    destruct e1 as [e|].
    + injection Hw as <- <- <-.
      exists [], (pre ++ [newline]), (spans post), k. simpl. rewrite app_nil_r.
      assert (Hk : 0 <= k <= len (pre ++ [newline])).
      { destruct Hw1 as [(_ & _ & -> & _)|(_ & Hk & _)].
        - lia.
        - match type of Hk with respond _ ?h _ = _ =>
            pose proof (proj1 (Hc h (pre ++ [newline]))) as Hb end.
          rewrite Hk in Hb. exact Hb. }
      repeat split; try exact Hw1; try lia.
      change (len (@nil byte)) with 0.
      rewrite int_wrap_small; [lia|]. unfold max_int in *. lia.
    + destruct Hw1 as (Hrec & Hacc & Hk).
      specialize (IH (set_started pw1 false) pw' (start + len (pre ++ [newline]))
                     total n err).
      cbn [set_started w prefix started] in IH.
      rewrite Hp, Hr, Hrec in IH. fold pfx in IH.
      assert (Hc1 : obeys_contract (w pw1))
        by (unfold obeys_contract; rewrite Hr; exact Hc).
      specialize (IH Hc1 ltac:(lia) ltac:(lia) Hmax Hw).
      destruct err as [e|].
      * destruct IH as (done & s & rest & k' & Hsp & Hacc' & Hrej & Hk' & Hn).
        exists ((pre ++ [newline]) :: done), s, rest, k'.
        cbn [emitted List.concat app].
        split; [rewrite Hsp; reflexivity|].
        split; [apply all_accepted_app; assumption|].
        split.
        { rewrite <- app_assoc in Hrej.
          destruct done; exact Hrej. }
        split; [exact Hk'|].
        rewrite len_app. lia.
      * destruct IH as (Hn & Hrec' & Hst'). split; [exact Hn|].
        cbn [emitted]. rewrite Hrec', <- app_assoc.
        split; [reflexivity|].
        rewrite Hst'. unfold started_after. simpl.
        rewrite has_newline_line. reflexivity.
Qed.

Lemma accepting_contract (s : Sink) : accepting s -> obeys_contract s.
Proof.
  intros Hacc h p. rewrite Hacc. simpl. pose proof (len_nonneg p).
  split; [lia|reflexivity].
Qed.

Lemma accepting_Write_result (pw : prefixWriter Sink) p :
  accepting (w pw) -> len p <= max_int ->
  exists pw',
    Write pw p = (pw', (len p, None)) /\
    received (w pw') =
      received (w pw) ++
      emitted (list_byte_of_string (prefix pw)) (started pw) (spans p) /\
    started pw' = started_after (started pw) (spans p) /\
    prefix pw' = prefix pw /\
    respond (w pw') = respond (w pw).
Proof.
  intros Hacc Hmax. rewrite Write_spans.
  destruct (accepting_write_spans (spans p) pw (len p) 0 Hacc)
    as (pw' & n & Hw & Hr).
  pose proof (@write_spans_result p pw pw' 0 (len p) n None
                (accepting_contract _ Hacc) ltac:(lia) eq_refl Hmax Hw)
    as (-> & Hrec & Hst).
  exists pw'. repeat split; try assumption.
  pose proof (write_spans_prefix (spans p) pw (len p) 0) as Hp.
  rewrite Hw in Hp. exact Hp.
Qed.

(** * The claims about the prefix writer *)

(** C1. In every sequence of [Write] calls to a fresh prefix writer in which
    no call fails, that is in which the destination accepts every write, the
    destination receives, for each line of the bytes written, one write of the
    prefix followed by the slices that make up the line: the writes it
    received are the groups of slices, each after one prefix, and the groups
    are the lines of the concatenated chunks, however the chunks divide
    them. *)
Theorem prefix_once_per_line (pfx : string) (s : Sink)
    (chunks : list (list byte)) :
  Forall (fun r => snd r = None)
         (snd (WriteAll (newPrefixWriter pfx s) chunks)) ->
  exists groups,
    received (w (fst (WriteAll (newPrefixWriter pfx s) chunks))) =
      received s ++ with_prefix (list_byte_of_string pfx) groups /\
    map (@List.concat byte) groups = spans (List.concat chunks).
Proof.
  intros Hok.
  pose proof (WriteAll_invariant _ chunks _ _ (fresh_invariant pfx s) Hok)
    as (groups & Hrec & Hdata & Hgr).
  rewrite WriteAll_prefix in Hrec. simpl in Hrec, Hdata.
  exists groups. split; [exact Hrec|].
  rewrite <- Hdata. eapply grouped_spans. exact Hgr.
Qed.

Lemma prefix_once_per_line_witness :
  let s := os_File [] in
  let chunks := [bytes_of "hel"; bytes_of "lo
wor"; []; bytes_of "ld
x"] in
  Forall (fun r => snd r = None)
         (snd (WriteAll (newPrefixWriter "> " s) chunks)) /\
  exists groups,
    received (w (fst (WriteAll (newPrefixWriter "> " s) chunks))) =
      received s ++ with_prefix (list_byte_of_string "> ") groups /\
    map (@List.concat byte) groups = spans (List.concat chunks).
Proof.
  intros s chunks.
  assert (H : Forall (fun r : Z * option error => snd r = None)
                     (snd (WriteAll (newPrefixWriter "> " s) chunks)))
    by (vm_compute; repeat constructor).
  split; [exact H|].
  exact (prefix_once_per_line "> " s chunks H).
Defined.

(** C2. Over a destination that accepts every write, the bytes that the
    destination holds after the chunks of [data] were written one call at a
    time to a fresh prefix writer are the bytes it holds after [data] was
    written to a fresh prefix writer in one call. *)
Theorem chunking_keeps_output (pfx : string) (s : Sink) (data : list byte)
    (chunks : list (list byte)) :
  accepting s ->
  List.concat chunks = data ->
  List.concat (received (w (fst (WriteAll (newPrefixWriter pfx s) chunks)))) =
  List.concat (received (w (fst (Write (newPrefixWriter pfx s) data)))).
Proof.
  intros Hacc Hdata.
  pose proof (WriteAll_invariant _ chunks _ _ (fresh_invariant pfx s)
                (accepting_WriteAll chunks (newPrefixWriter pfx s) Hacc)) as Hc.
  destruct (accepting_Write (newPrefixWriter pfx s) data Hacc)
    as (pw1 & n & Hw & _).
  assert (H1 : line_invariant (received s) ([] ++ data) pw1)
    by (eapply Write_invariant; [apply fresh_invariant|exact Hw]).
  rewrite Hw. simpl fst.
  rewrite (invariant_bytes _ _ _ Hc), (invariant_bytes _ _ _ H1).
  rewrite WriteAll_prefix.
  pose proof (write_spans_prefix (spans data) (newPrefixWriter pfx s) (len data) 0) as Hp.
  rewrite <- Write_spans, Hw in Hp. simpl in Hp. rewrite Hp.
  simpl. rewrite Hdata. reflexivity.
Qed.

Lemma chunking_keeps_output_witness :
  let s := os_File [bytes_of "earlier"] in
  let data := bytes_of "one
two
three" in
  let chunks := [bytes_of "on"; bytes_of "e
two
t"; bytes_of "hree"] in
  accepting s /\ List.concat chunks = data /\
  List.concat (received (w (fst (WriteAll (newPrefixWriter "[out] " s) chunks)))) =
  List.concat (received (w (fst (Write (newPrefixWriter "[out] " s) data)))).
Proof.
  intros s data chunks.
  assert (Hacc : accepting s) by (intros h p; reflexivity).
  assert (Hdata : List.concat chunks = data) by reflexivity.
  split; [exact Hacc|]. split; [exact Hdata|].
  exact (chunking_keeps_output "[out] " s data chunks Hacc Hdata).
Defined.

(** C5. One call that writes the two lines ["a\nb\n"] to a fresh prefix
    writer sends to a destination that accepts every write the prefix, the
    span ["a\n"], the prefix again and the span ["b\n"], and nothing else; it
    returns 4 and leaves the writer at the start of a line. *)
Theorem two_lines_in_one_call (pfx : string) (s : Sink) :
  accepting s ->
  let r := Write (newPrefixWriter pfx s) (bytes_of "a
b
") in
  received (w (fst r)) =
    received s ++ [list_byte_of_string pfx; bytes_of "a
"; list_byte_of_string pfx; bytes_of "b
"] /\
  snd r = (4, None) /\
  started (fst r) = false.
Proof.
  intros Hacc r.
  destruct (accepting_Write_result (newPrefixWriter pfx s) (bytes_of "a
b
") Hacc ltac:(vm_compute; discriminate))
    as (pw' & Hw & Hrec & Hst & _).
  subst r. rewrite Hw. simpl fst. simpl snd.
  rewrite Hrec, Hst. repeat split.
Qed.

Lemma two_lines_in_one_call_witness :
  let s := os_File [] in
  accepting s /\
  let r := Write (newPrefixWriter "[cmd][stdout] " s) (bytes_of "a
b
") in
  received (w (fst r)) =
    received s ++ [list_byte_of_string "[cmd][stdout] "; bytes_of "a
"; list_byte_of_string "[cmd][stdout] "; bytes_of "b
"] /\
  snd r = (4, None) /\
  started (fst r) = false.
Proof.
  intros s.
  assert (Hacc : accepting s) by (intros h p; reflexivity).
  split; [exact Hacc|].
  exact (two_lines_in_one_call "[cmd][stdout] " s Hacc).
Defined.

(** C6. Two calls that write ["hello"] and then ["world\n"] to a fresh prefix
    writer send to a destination that accepts every write the prefix, then
    ["hello"], then ["world\n"], and nothing else: after the first call the
    writer is in the middle of a line, and the second call writes no
    prefix. *)
Theorem one_line_in_two_calls (pfx : string) (s : Sink) :
  accepting s ->
  let pw1 := fst (Write (newPrefixWriter pfx s) (bytes_of "hello")) in
  let r := WriteAll (newPrefixWriter pfx s) [bytes_of "hello"; bytes_of "world
"] in
  started pw1 = true /\
  received (w (fst r)) =
    received s ++ [list_byte_of_string pfx; bytes_of "hello"; bytes_of "world
"] /\
  snd r = [(5, None); (6, None)] /\
  started (fst r) = false.
Proof.
  intros Hacc pw1 r. subst pw1 r. cbn [WriteAll].
  destruct (accepting_Write_result (newPrefixWriter pfx s) (bytes_of "hello")
              Hacc ltac:(vm_compute; discriminate))
    as (pw1 & Hw1 & Hrec1 & Hst1 & Hp1 & Hr1).
  rewrite Hw1. cbn [fst snd].
  assert (Hacc1 : accepting (w pw1))
    by (unfold accepting; rewrite Hr1; exact Hacc).
  destruct (accepting_Write_result pw1 (bytes_of "world
") Hacc1 ltac:(vm_compute; discriminate))
    as (pw2 & Hw2 & Hrec2 & Hst2 & _).
  rewrite Hw2. cbn [fst snd].
  rewrite Hrec2, Hst2, Hrec1, Hst1, Hp1. cbn [newPrefixWriter w started prefix].
  rewrite <- app_assoc. repeat split.
Qed.

Lemma one_line_in_two_calls_witness :
  let s := os_File [] in
  accepting s /\
  let pw1 := fst (Write (newPrefixWriter "> " s) (bytes_of "hello")) in
  let r := WriteAll (newPrefixWriter "> " s) [bytes_of "hello"; bytes_of "world
"] in
  started pw1 = true /\
  received (w (fst r)) =
    received s ++ [list_byte_of_string "> "; bytes_of "hello"; bytes_of "world
"] /\
  snd r = [(5, None); (6, None)] /\
  started (fst r) = false.
Proof.
  intros s.
  assert (Hacc : accepting s) by (intros h p; reflexivity).
  split; [exact Hacc|].
  exact (one_line_in_two_calls "> " s Hacc).
Defined.

(** C7. A call of [Write] on the slice [p], over a destination that keeps the
    contract of [io.Writer], returns [len(p)] when no write fails: the bytes
    of the prefix are not counted.  When the destination rejects a write,
    the call returns the error of that write, the rejected write is the last
    that the destination receives, every write before it was accepted, and
    the count is the length of the spans written before plus the count that
    the destination reports for the rejected span, which is 0 when it is the
    prefix that was rejected. *)
Theorem Write_count_and_error (pw pw' : prefixWriter Sink) (p : list byte)
    (n : Z) (err : option error) :
  obeys_contract (w pw) ->
  len p <= max_int ->
  Write pw p = (pw', (n, err)) ->
  Write_outcome pw p pw' n err.
Proof.
  intros Hc Hmax Hw. rewrite Write_spans in Hw.
  pose proof (write_spans_result p pw pw' 0 (len p) n err Hc
                ltac:(lia) eq_refl Hmax Hw) as H.
  unfold Write_outcome. destruct err as [e|].
  - destruct H as (done & s & rest & k & H1 & H2 & H3 & H4 & H5).
    exists done, s, rest, k. repeat split; try assumption; lia.
  - destruct H as (H1 & H2 & _). split; assumption.
Qed.

Lemma Write_count_and_error_witness :
  let pw := newPrefixWriter "> " full_after_three in
  let p := bytes_of "ab
cd
ef" in
  obeys_contract (w pw) /\ len p <= max_int /\
  Write_outcome pw p (fst (Write pw p)) 4 (Some "no space left"%string).
Proof.
  intros pw p.
  assert (Hc : obeys_contract (w pw)).
  { intros h q. simpl. pose proof (len_nonneg q).
    destruct (len h <? 3); simpl; split; try lia; try reflexivity; discriminate. }
  assert (Hmax : len p <= max_int) by (vm_compute; discriminate).
  split; [exact Hc|]. split; [exact Hmax|].
  apply (Write_count_and_error pw (fst (Write pw p)) p 4
           (Some "no space left"%string) Hc Hmax).
  vm_compute. reflexivity.
Defined.

(** * The command runner *)

(** ** What a destination has received only grows *)

Lemma writeOnce_grows (pw : prefixWriter Sink) s :
  exists extra,
    received (w (fst (writeOnce pw s))) = received (w pw) ++ extra.
Proof.
  unfold writeOnce, Write, Sink_Writer.
  destruct (negb (started pw)); simpl.
  - destruct (respond _ _ (list_byte_of_string _)) as [k [e|]]; simpl.
    + eexists. reflexivity.
    + eexists. rewrite <- app_assoc. reflexivity.
  - eexists. reflexivity.
Qed.

Lemma write_spans_grows ss :
  forall (pw : prefixWriter Sink) total start,
  exists extra,
    received (w (fst (write_spans total pw start ss))) =
    received (w pw) ++ extra.
Proof.
  induction ss as [|s ss IH]; intros pw total start; simpl.
  - exists []. rewrite app_nil_r. reflexivity.
  - destruct (writeOnce_grows pw s) as [x1 H1].
    destruct (writeOnce pw s) as [pw1 [k [e|]]]; simpl in H1;
      destruct (has_newline s); simpl; try (exists x1; exact H1).
    destruct (IH (set_started pw1 false) total (start + len s)) as [x2 H2].
    simpl in H2. rewrite H1, <- app_assoc in H2. eexists. exact H2.
Qed.

Lemma prefixWriter_Write_grows (pw : prefixWriter Sink) p :
  exists extra, received (w (fst (Write pw p))) = received (w pw) ++ extra.
Proof. rewrite Write_spans. apply write_spans_grows. Qed.

Lemma multiWriter_Write_grows (t : multiWriter (prefixWriter Sink) Buffer) p :
  exists extra,
    received (w (first (fst (Write t p)))) = received (w (first t)) ++ extra.
Proof.
  unfold Write at 1, multiWriter_Writer.
  destruct (prefixWriter_Write_grows (first t) p) as [x Hx].
  destruct (Write (first t) p) as [w1 [n [e|]]]; simpl in Hx.
  - exists x. exact Hx.
  - destruct (negb (n =? len p)); [exists x; exact Hx|].
    destruct (Write (second t) p) as [w2 [n2 [e2|]]]; [exists x; exact Hx|].
    destruct (negb (n2 =? len p)); exists x; exact Hx.
Qed.

Lemma Copy_multiWriter_grows chunks :
  forall t : multiWriter (prefixWriter Sink) Buffer,
  exists extra,
    received (w (first (fst (Copy t chunks)))) =
    received (w (first t)) ++ extra.
Proof.
  induction chunks as [|c cs IH]; intros t; simpl.
  - exists []. rewrite app_nil_r. reflexivity.
  - destruct (multiWriter_Write_grows t c) as [x Hx].
    destruct (Write t c) as [t1 [nw ew]]. simpl in Hx.
    destruct (if (nw <? 0) || (len c <? nw)
              then match ew with
                   | Some e => Some e
                   | None => Some errInvalidWrite
                   end
              else ew) as [e|]; [exists x; exact Hx|].
    destruct (negb (len c =? nw)); [exists x; exact Hx|].
    destruct (IH t1) as [y Hy]. rewrite Hx, <- app_assoc in Hy.
    eexists. exact Hy.
Qed.

(** ** The effect of a command on the world *)

Section Runner.
Variable verbose : bool.
Variable env : Env.

Lemma Args_CommandContext name args :
  Args (CommandContext env name args) = name :: args.
Proof.
  unfold CommandContext. destruct (is_base name); [|reflexivity].
  destruct (LookPath env name). reflexivity.
Qed.

(** A command that returns has started its process, and a command that does
    not return exits with status 1; the command writes to standard output
    only in verbose mode, and then the echo of the command line first. *)
Lemma runCmd_world ctx name args world :
  let r := runCmd verbose env ctx name args world in
  (exists outs,
      os_Stdout (snd r) =
        os_Stdout world ++
        (if verbose
         then list_byte_of_string
                ("[cmd] " ++ Cmd_String (CommandContext env name args) ++ "
") :: outs
         else [])) /\
  match fst r with
  | Returned _ => spawned (snd r) = spawned world ++ [name :: args]
  | Exited code =>
      code = 1 /\
      (spawned (snd r) = spawned world \/
       spawned (snd r) = spawned world ++ [name :: args])
  end.
Proof.
  unfold runCmd, bind, Cmd_Run.
  rewrite Args_CommandContext.
  set (cmd := CommandContext env name args).
  destruct verbose; simpl.
  - destruct (Err cmd) as [e|]; simpl.
    + split; [exists []; reflexivity|]. split; [reflexivity|left; reflexivity].
    + match goal with |- context [Copy ?t ?cs] =>
        destruct (Copy_multiWriter_grows cs t) as [x Hx];
        destruct (Copy t cs) as [t1 eo] end.
      simpl in Hx.
      match goal with |- context [Copy ?t ?cs] =>
        destruct (Copy t cs) as [t2 ee] end.
      assert (Hout : received (w (first t1)) =
                     os_Stdout world ++
                     list_byte_of_string ("[cmd] " ++ Cmd_String cmd ++ "
") :: x)
        by (rewrite Hx, <- app_assoc; reflexivity).
      destruct (proc_err _) as [e|]; [|destruct eo as [e|]; [|destruct ee as [e|]]];
        simpl; (split; [exists x; exact Hout|]);
        try (split; [reflexivity|right; reflexivity]); reflexivity.
  - destruct (Err cmd) as [e|]; simpl.
    + split; [exists []; rewrite app_nil_r; reflexivity|].
      split; [reflexivity|left; reflexivity].
    + match goal with |- context [@Copy Buffer _ ?t ?cs] =>
        destruct (@Copy Buffer _ t cs) as [t1 eo] end.
      match goal with |- context [Copy ?t ?cs] =>
        destruct (Copy t cs) as [t2 ee] end.
      destruct (proc_err _) as [e|]; [|destruct eo as [e|]; [|destruct ee as [e|]]];
        simpl; (split; [exists []; rewrite app_nil_r; reflexivity|]);
        try (split; [reflexivity|right; reflexivity]); reflexivity.
Qed.
End Runner.

(** * The orchestrator *)

Lemma bind_returned {A B} (m : M A) (k : A -> M B) world a world1 :
  m world = (Returned a, world1) -> bind m k world = k a world1.
Proof. unfold bind. intros ->. reflexivity. Qed.

(** The loop of [getMergedBranches] keeps the trimmed lines that do not
    begin with the marker of the current branch. *)
Lemma keep_branch_filter tokens :
  forall branches,
    fold_left keep_branch tokens branches =
    branches ++
    filter (fun line => negb (strings.HasPrefix line "* "))
           (map (fun token => strings.TrimSpace (string_of_list_byte token))
                tokens).
Proof.
  induction tokens as [|t tokens IH]; intros branches; simpl.
  - rewrite app_nil_r. reflexivity.
  - rewrite IH. unfold keep_branch.
    destruct (negb (strings.HasPrefix _ "* ")).
    + rewrite <- app_assoc. reflexivity.
    + reflexivity.
Qed.

Section Orchestrator.
Variable force verbose : bool.
Variable env : Env.

Lemma runCmd_returned ctx name args world out world' :
  runCmd verbose env ctx name args world = (Returned out, world') ->
  spawned world' = spawned world ++ [name :: args] /\ grown verbose world world'.
Proof.
  intros Hr.
  pose proof (runCmd_world verbose env ctx name args world) as [[outs Ho] Hs].
  rewrite Hr in Ho, Hs. simpl in Ho, Hs. split; [exact Hs|].
  eexists. split; [exact Ho|]. intros ->. reflexivity.
Qed.

Lemma getCurrentBranch_returned world cur world' :
  getCurrentBranch verbose env world = (Returned cur, world') ->
  spawned world' = spawned world ++ [git_rev_parse] /\ grown verbose world world'.
Proof.
  unfold getCurrentBranch, runCmdDefaultTimeout, bind, ret.
  destruct (runCmd _ _ _ _ _ world) as [[out|code] w1] eqn:Hr; [|discriminate].
  intros [= _ <-]. eapply runCmd_returned. exact Hr.
Qed.

Lemma getDefaultBranch_returned world def world' :
  getDefaultBranch verbose env world = (Returned def, world') ->
  spawned world' = spawned world ++ [git_remote_show] /\ grown verbose world world'.
Proof.
  unfold getDefaultBranch, runCmdDefaultTimeout, bind, ret.
  destruct (runCmd _ _ _ _ _ world) as [[out|code] w1] eqn:Hr; [|discriminate].
  destruct (negb (len (defaultBranchRegexp out) =? 2)); [discriminate|].
  intros [= _ <-]. eapply runCmd_returned. exact Hr.
Qed.

Lemma deleteBranch_returned branch world world' :
  deleteBranch verbose env branch world = (Returned tt, world') ->
  spawned world' = spawned world ++ [git_branch_d branch] /\
  grown verbose world world'.
Proof.
  unfold deleteBranch, runCmdDefaultTimeout, bind, ret.
  destruct (runCmd _ _ _ _ _ world) as [[out|code] w1] eqn:Hr; [|discriminate].
  intros [= <-]. eapply runCmd_returned. exact Hr.
Qed.

(** The candidates that [getMergedBranches] returns for the listing
    [out]. *)
Lemma getMergedBranches_returned world out world1 :
  runCmdDefaultTimeout verbose env "git" ["branch"; "--merged"]%string world =
    (Returned out, world1) ->
  exists world',
    getMergedBranches verbose env world =
      (Returned (fold_left keep_branch (fst (bufio.ScanLines out)) []), world') /\
    spawned world' = spawned world1 /\
    os_Stdout world' = os_Stdout world1 /\
    os_Stderr world' =
      os_Stderr world1 ++
      match snd (bufio.ScanLines out) with
      | Some e => [bytes_of ("[error] scanner error " ++ e ++ "
")]
      | None => []
      end.
Proof.
  intros Hr. unfold getMergedBranches.
  rewrite (bind_returned _ _ _ _ _ Hr).
  destruct (bufio.ScanLines out) as [tokens [e|]]; simpl.
  - eexists. unfold bind, Fprintf_Stderr, ret. simpl.
    repeat split; reflexivity.
  - eexists. unfold ret. rewrite app_nil_r. repeat split; reflexivity.
Qed.

(** The loop of [main], when every delete command that it runs returns. *)
Lemma for_range_report branches :
  forall world,
    (force = true ->
     forall branch w, In branch branches ->
       exists w', deleteBranch verbose env branch w = (Returned tt, w')) ->
    exists world' outs,
      for_range branches (report_and_delete force verbose env) world =
        (Returned tt, world') /\
      spawned world' =
        spawned world ++ (if force then map git_branch_d branches else []) /\
      os_Stdout world' = os_Stdout world ++ outs /\
      (forall branch, In branch branches ->
                      In (bytes_of (report force branch)) outs) /\
      (verbose = false \/ force = false ->
       outs = map (fun branch => bytes_of (report force branch)) branches).
Proof.
  induction branches as [|b branches IH]; intros world Hdel.
  - exists world, []. simpl. unfold ret.
    destruct force; rewrite !app_nil_r; repeat split; try reflexivity;
      intros ? [].
  - simpl for_range. unfold report_and_delete at 1, bind at 1, bind at 1, Printf at 1.
    set (w1 := mkWorld (spawned world)
                       (os_Stdout world ++ [list_byte_of_string (report force b)])
                       (os_Stderr world)).
    destruct force eqn:Hf.
    + destruct (Hdel eq_refl b w1 (or_introl eq_refl)) as [w2 Hd].
      rewrite Hd.
      apply deleteBranch_returned in Hd as [Hs (o1 & Ho1 & Hq1)].
      destruct (IH w2) as (world' & outs & Hrun & Hsp & Hout & Hin & Hex).
      { intros _ branch w Hb. apply (Hdel eq_refl). right. exact Hb. }
      exists world', (bytes_of (report true b) :: o1 ++ outs).
      split; [exact Hrun|]. split; [|split; [|split]].
      * rewrite Hsp, Hs. simpl. rewrite <- app_assoc. reflexivity.
      * rewrite Hout, Ho1. simpl. rewrite <- !app_assoc. reflexivity.
      * intros branch [<-|Hb]; [left; reflexivity|].
        right. apply in_or_app. right. apply Hin. exact Hb.
      * intros [Hv|Hv]; [|discriminate].
        rewrite (Hq1 Hv), (Hex (or_introl Hv)). reflexivity.
    + unfold ret at 1.
      destruct (IH w1) as (world' & outs & Hrun & Hsp & Hout & Hin & Hex).
      { intros Hfalse. discriminate. }
      exists world', (bytes_of (report false b) :: outs).
      split; [exact Hrun|]. split; [|split; [|split]].
      * rewrite Hsp. reflexivity.
      * rewrite Hout. simpl. rewrite <- app_assoc. reflexivity.
      * intros branch [<-|Hb]; [left; reflexivity|]. right. apply Hin. exact Hb.
      * intros Hv. rewrite (Hex (or_intror eq_refl)). reflexivity.
Qed.
End Orchestrator.

(** * The claims about the orchestrator *)

(** C4. When the current branch that [rev-parse] gave differs from the
    default branch read from [remote show origin], the run exits with
    status 1 after the message of refusal, whatever the force flag: the only
    processes started are those two, so the merged branches are not listed
    and no branch is deleted. *)
Theorem wrong_branch_aborts (force verbose : bool) (env : Env)
    (world w1 w2 : World) (cur def : string) :
  getCurrentBranch verbose env world = (Returned cur, w1) ->
  getDefaultBranch verbose env w1 = (Returned def, w2) ->
  cur <> def ->
  run force verbose env world =
    (1, mkWorld (spawned w2) (os_Stdout w2)
                (os_Stderr w2 ++ [bytes_of (refusal cur def)])) /\
  spawned w2 = spawned world ++ [git_rev_parse; git_remote_show].
Proof.
  intros Hcur Hdef Hne. split.
  - unfold run, main.
    rewrite (bind_returned _ _ _ _ _ Hcur), (bind_returned _ _ _ _ _ Hdef).
    apply String.eqb_neq in Hne. rewrite Hne. reflexivity.
  - apply getCurrentBranch_returned in Hcur as [H1 _].
    apply getDefaultBranch_returned in Hdef as [H2 _].
    rewrite H2, H1, <- app_assoc. reflexivity.
Qed.

Lemma wrong_branch_aborts_witness :
  let env := scenario "feature-x" listing_main_a_b in
  let w1 := snd (getCurrentBranch false env world0) in
  let w2 := snd (getDefaultBranch false env w1) in
  getCurrentBranch false env world0 = (Returned "feature-x"%string, w1) /\
  getDefaultBranch false env w1 = (Returned "main"%string, w2) /\
  "feature-x"%string <> "main"%string /\
  run true false env world0 =
    (1, mkWorld (spawned w2) (os_Stdout w2)
                (os_Stderr w2 ++ [bytes_of (refusal "feature-x" "main")])) /\
  spawned w2 = spawned world0 ++ [git_rev_parse; git_remote_show].
Proof.
  intros env w1 w2.
  assert (Hcur : getCurrentBranch false env world0 =
                 (Returned "feature-x"%string, w1)) by (vm_compute; reflexivity).
  assert (Hdef : getDefaultBranch false env w1 = (Returned "main"%string, w2))
    by (vm_compute; reflexivity).
  assert (Hne : "feature-x"%string <> "main"%string) by discriminate.
  split; [exact Hcur|]. split; [exact Hdef|]. split; [exact Hne|].
  exact (wrong_branch_aborts true false env world0 w1 w2 _ _ Hcur Hdef Hne).
Defined.

(** C3. On the default branch [main], with the merged-branches listing
    ["* main\nfeature-a\nfeature-b\n"], and with every delete command of
    the run succeeding: the run ends with status 0 and prints a line for
    [feature-a] and a line for [feature-b], ["[would delete] ..."] without
    the force flag and ["[deleting] ..."] with it.  Without the force flag
    it starts no process after the listing; with it, it starts the two
    delete commands, one for each candidate, in order.  The line ["* main"]
    is no candidate.  Outside verbose mode, and without the force flag, the
    two lines are all that is printed after the listing. *)
Theorem merged_branches_scenario (force verbose : bool) (env : Env)
    (world w1 w2 w3 : World) :
  getCurrentBranch verbose env world = (Returned "main"%string, w1) ->
  getDefaultBranch verbose env w1 = (Returned "main"%string, w2) ->
  runCmdDefaultTimeout verbose env "git" ["branch"; "--merged"]%string w2 =
    (Returned listing_main_a_b, w3) ->
  (force = true ->
   forall branch w, In branch ["feature-a"; "feature-b"]%string ->
     exists w', deleteBranch verbose env branch w = (Returned tt, w')) ->
  let line branch :=
    bytes_of ((if force then "[deleting] " else "[would delete] ")
              ++ branch ++ "
") in
  exists w4 world' outs,
    getMergedBranches verbose env w2 =
      (Returned ["feature-a"; "feature-b"]%string, w4) /\
    run force verbose env world = (0, world') /\
    spawned world' =
      spawned world ++
      [git_rev_parse; git_remote_show; git_branch_merged] ++
      (if force then [git_branch_d "feature-a"; git_branch_d "feature-b"]
       else []) /\
    os_Stdout world' = os_Stdout w3 ++ outs /\
    In (line "feature-a"%string) outs /\ In (line "feature-b"%string) outs /\
    (verbose = false \/ force = false ->
     outs = [line "feature-a"%string; line "feature-b"%string]) /\
    (verbose = false -> os_Stdout w3 = os_Stdout world).
Proof.
  intros Hcur Hdef Hlist Hdel line.
  destruct (getMergedBranches_returned verbose env w2 _ w3 Hlist)
    as (w4 & Hm & Hs4 & Ho4 & _).
  change (fold_left keep_branch (fst (bufio.ScanLines listing_main_a_b)) [])
    with ["feature-a"; "feature-b"]%string in Hm.
  destruct (for_range_report force verbose env
              ["feature-a"; "feature-b"]%string w4 Hdel)
    as (world' & outs & Hrun & Hsp & Hout & Hin & Hex).
  assert (Hline : forall b, bytes_of (report force b) = line b)
    by (intros b; unfold report, line; destruct force; reflexivity).
  exists w4, world', outs.
  split; [exact Hm|]. split; [|split; [|split; [|split; [|split; [|split]]]]].
  - unfold run, main.
    rewrite (bind_returned _ _ _ _ _ Hcur), (bind_returned _ _ _ _ _ Hdef).
    simpl negb. cbv iota.
    rewrite (bind_returned (ret tt) _ w2 tt w2 eq_refl).
    rewrite (bind_returned _ _ _ _ _ Hm), Hrun. reflexivity.
  - apply getCurrentBranch_returned in Hcur as [H1 _].
    apply getDefaultBranch_returned in Hdef as [H2 _].
    apply runCmd_returned in Hlist as [H3 _].
    rewrite Hsp, Hs4, H3, H2, H1, <- !app_assoc.
    destruct force; reflexivity.
  - rewrite Hout, Ho4. reflexivity.
  - rewrite <- Hline. apply Hin. left. reflexivity.
  - rewrite <- Hline. apply Hin. right. left. reflexivity.
  - intros H. rewrite (Hex H). simpl. rewrite !Hline. reflexivity.
  - intros Hv.
    apply getCurrentBranch_returned in Hcur as [_ (o1 & E1 & Q1)].
    apply getDefaultBranch_returned in Hdef as [_ (o2 & E2 & Q2)].
    apply runCmd_returned in Hlist as [_ (o3 & E3 & Q3)].
    rewrite E3, E2, E1, (Q1 Hv), (Q2 Hv), (Q3 Hv), !app_nil_r. reflexivity.
Qed.

Lemma merged_branches_scenario_witness :
  let env := scenario "main" listing_main_a_b in
  let w1 := snd (getCurrentBranch true env world0) in
  let w2 := snd (getDefaultBranch true env w1) in
  let w3 := snd (runCmdDefaultTimeout true env "git"
                   ["branch"; "--merged"]%string w2) in
  let line branch := bytes_of ("[deleting] " ++ branch ++ "
") in
  getCurrentBranch true env world0 = (Returned "main"%string, w1) /\
  getDefaultBranch true env w1 = (Returned "main"%string, w2) /\
  runCmdDefaultTimeout true env "git" ["branch"; "--merged"]%string w2 =
    (Returned listing_main_a_b, w3) /\
  (true = true ->
   forall branch w, In branch ["feature-a"; "feature-b"]%string ->
     exists w', deleteBranch true env branch w = (Returned tt, w')) /\
  exists w4 world' outs,
    getMergedBranches true env w2 =
      (Returned ["feature-a"; "feature-b"]%string, w4) /\
    run true true env world0 = (0, world') /\
    spawned world' =
      spawned world0 ++
      [git_rev_parse; git_remote_show; git_branch_merged] ++
      [git_branch_d "feature-a"; git_branch_d "feature-b"] /\
    os_Stdout world' = os_Stdout w3 ++ outs /\
    In (line "feature-a"%string) outs /\ In (line "feature-b"%string) outs /\
    (true = false \/ true = false ->
     outs = [line "feature-a"%string; line "feature-b"%string]) /\
    (true = false -> os_Stdout w3 = os_Stdout world0).
Proof.
  intros env w1 w2 w3 line.
  assert (Hcur : getCurrentBranch true env world0 =
                 (Returned "main"%string, w1)) by (vm_compute; reflexivity).
  assert (Hdef : getDefaultBranch true env w1 = (Returned "main"%string, w2))
    by (vm_compute; reflexivity).
  assert (Hlist : runCmdDefaultTimeout true env "git"
                    ["branch"; "--merged"]%string w2 =
                  (Returned listing_main_a_b, w3)) by (vm_compute; reflexivity).
  assert (Hdel : true = true ->
                 forall branch w, In branch ["feature-a"; "feature-b"]%string ->
                   exists w', deleteBranch true env branch w = (Returned tt, w')).
  { intros _ branch w [<-|[<-|[]]]; eexists; vm_compute; reflexivity. }
  split; [exact Hcur|]. split; [exact Hdef|]. split; [exact Hlist|].
  split; [exact Hdel|].
  exact (merged_branches_scenario true true env world0 w1 w2 w3
           Hcur Hdef Hlist Hdel).
Defined.

(** C8, at a listing whose second line is too long for the scanner:
    [getMergedBranches] prints the error of the scanner and returns the
    branches read before it, and the run goes on: with the force flag it
    deletes [feature-a] and ends with status 0. *)
Theorem scan_error_does_not_end_the_run :
  let r := run true false (scenario "main" listing_too_long) world0 in
  fst r = 0 /\
  spawned (snd r) =
    [git_rev_parse; git_remote_show; git_branch_merged;
     git_branch_d "feature-a"] /\
  os_Stdout (snd r) = [bytes_of "[deleting] feature-a
"] /\
  In (bytes_of "[error] scanner error bufio.Scanner: token too long
") (os_Stderr (snd r)).
Proof.
  vm_compute. repeat split. right. right. left. reflexivity.
Qed.

(** C9, at a listing with a branch checked out in a linked worktree: in
    verbose mode the echo of the delete command is the path and the
    arguments joined by spaces, without quotes, so the echo of the command
    with the one argument ["+ feature-a"] is the echo of the command with
    the two arguments ["+"] and ["feature-a"]. *)
Theorem echo_is_not_quoted (env : Env) :
  Cmd_String (CommandContext env "git" ["branch"; "-d"; "+ feature-a"]%string) =
  Cmd_String (CommandContext env "git" ["branch"; "-d"; "+"; "feature-a"]%string) /\
  let r := run true true (scenario "main" listing_with_worktree) world0 in
  In (git_branch_d "+ feature-a") (spawned (snd r)) /\
  In (bytes_of "[cmd] /usr/bin/git branch -d + feature-a
") (os_Stdout (snd r)).
Proof.
  split.
  - unfold CommandContext. change (is_base "git") with true. cbv iota.
    destruct (LookPath env "git") as [lp [e|]]; reflexivity.
  - vm_compute. split; repeat (first [left; reflexivity | right]).
Qed.

(** * More about the prefix writer *)

Section WriterState.
Context {W : Type} {HW : Writer W}.

(** X1. Writing the empty slice does nothing, whatever the state of the
    writer and whatever its destination, even one that rejects every write:
    the call returns 0 and no error, writes nothing, not even the prefix, and
    leaves the writer as it was. *)
Theorem Write_empty (pw : prefixWriter W) : Write pw [] = (pw, (0, None)).
Proof.
  unfold Write, prefixWriter_Writer. rewrite Write_from_step. reflexivity.
Qed.

Lemma writeOnce_started (pw : prefixWriter W) s :
  started (fst (writeOnce pw s)) = started pw.
Proof.
  unfold writeOnce.
  destruct (negb (started pw)).
  - destruct (Write (w pw) _) as [w1 [k [e|]]]; [reflexivity|].
    destruct (Write w1 s) as [w2 r]. reflexivity.
  - destruct (Write (w pw) s) as [w2 r]. reflexivity.
Qed.

Lemma write_spans_started q :
  forall (pw : prefixWriter W) total start,
    match snd (snd (write_spans total pw start (spans q))) with
    | None =>
        started (fst (write_spans total pw start (spans q))) =
        started_after (started pw) (spans q)
    | Some _ =>
        started (fst (write_spans total pw start (spans q))) = true ->
        started pw = true
    end.
Proof.
  induction q as [|s Hne Hn|pre post Hpre IH] using spans_ind;
    intros pw total start.
  - reflexivity.
  - rewrite spans_partial by assumption. simpl. rewrite Hn.
    pose proof (writeOnce_started pw s) as Hs.
    destruct (writeOnce pw s) as [pw1 [k [e|]]]; simpl in *.
    + congruence.
    + unfold started_after; simpl; rewrite ?Hn; reflexivity.
  - rewrite spans_line by assumption. simpl. rewrite has_newline_line.
    pose proof (writeOnce_started pw (pre ++ [newline])) as Hs.
    destruct (writeOnce pw (pre ++ [newline])) as [pw1 [k [e|]]]; simpl in *.
    + congruence.
    + specialize (IH (set_started pw1 false) total
                     (start + len (pre ++ [newline]))).
      destruct (snd (snd (write_spans total (set_started pw1 false)
                            (start + len (pre ++ [newline])) (spans post)))).
      * intros Ht. specialize (IH Ht). discriminate.
      * rewrite IH. unfold started_after. simpl.
        rewrite ?has_newline_line. reflexivity.
Qed.
End WriterState.

Lemma last_no_newline s d :
  s <> [] -> has_newline s = false -> Byte.eqb (last s d) newline = false.
Proof.
  induction s as [|c s IH]; intros Hne Hn; [congruence|].
  simpl in Hn. apply orb_false_iff in Hn as [Hc Hs].
  destruct s as [|c' s]; [exact Hc|].
  apply IH; [discriminate|exact Hs].
Qed.

Lemma last_app_nonempty (a b : list byte) d :
  b <> [] -> last (a ++ b) d = last b d.
Proof.
  intros Hb. induction a as [|c a IH]; [reflexivity|].
  simpl. destruct (a ++ b) eqn:E; [|exact IH].
  apply app_eq_nil in E as [_ E]. congruence.
Qed.

(** The flag after the spans of a slice: unchanged for the empty slice,
    otherwise set unless the last byte is a newline. *)
Lemma started_after_spans st p :
  started_after st (spans p) =
  match p with
  | [] => st
  | _ :: _ => negb (Byte.eqb (last p x00) newline)
  end.
Proof.
  revert st.
  induction p as [|s Hne Hn|pre post Hpre IH] using spans_ind; intros st.
  - reflexivity.
  - rewrite spans_partial by assumption.
    unfold started_after. simpl. rewrite Hn.
    rewrite (last_no_newline s x00 Hne Hn).
    destruct s; [congruence|reflexivity].
  - rewrite spans_line by assumption.
    unfold started_after in *. simpl. rewrite has_newline_line. simpl.
    rewrite IH.
    destruct (pre ++ newline :: post) eqn:E;
      [destruct pre; discriminate|]. rewrite <- E.
    destruct post as [|c post].
    + rewrite last_last. reflexivity.
    + rewrite last_app_nonempty by discriminate.
      change (last (newline :: c :: post) x00) with (last (c :: post) x00).
      reflexivity.
Qed.

(** X2. After a call of [Write] that returns no error, over any destination,
    the writer is in the middle of a line exactly when the slice written
    does not end in a newline; for the empty slice the flag is as before. *)
Theorem started_after_Write {W : Type} {HW : Writer W}
    (pw pw' : prefixWriter W) (p : list byte) (n : Z) :
  Write pw p = (pw', (n, None)) ->
  started pw' =
  match p with
  | [] => started pw
  | _ :: _ => negb (Byte.eqb (last p x00) newline)
  end.
Proof.
  intros Hw. rewrite Write_spans in Hw.
  pose proof (write_spans_started p pw (len p) 0) as H.
  rewrite Hw in H. simpl in H. rewrite H. apply started_after_spans.
Qed.

Lemma started_after_Write_witness :
  let pw := newPrefixWriter "> " (os_File []) in
  let p := bytes_of "ab
cd" in
  Write pw p = (fst (Write pw p), (5, None)) /\
  started (fst (Write pw p)) = negb (Byte.eqb (last p x00) newline).
Proof.
  intros pw p.
  assert (Hw : Write pw p = (fst (Write pw p), (5, None)))
    by (vm_compute; reflexivity).
  split; [exact Hw|].
  exact (started_after_Write pw (fst (Write pw p)) p 5 Hw).
Defined.

(** X3. A call of [Write] that returns an error, over any destination,
    never leaves the writer in the middle of a line unless it was there
    before the call: after a failure at the start of a line the next call
    begins with the prefix. *)
Theorem failed_Write_not_midline {W : Type} {HW : Writer W}
    (pw pw' : prefixWriter W) (p : list byte) (n : Z) (e : error) :
  Write pw p = (pw', (n, Some e)) ->
  started pw' = true -> started pw = true.
Proof.
  intros Hw. rewrite Write_spans in Hw.
  pose proof (write_spans_started p pw (len p) 0) as H.
  rewrite Hw in H. exact H.
Qed.

Lemma failed_Write_not_midline_witness :
  let pw := set_started (newPrefixWriter "> " full_after_three) true in
  let p := bytes_of "ab
cd
ef
gh" in
  Write pw p = (fst (Write pw p), (6, Some "no space left"%string)) /\
  (started (fst (Write pw p)) = true -> started pw = true).
Proof.
  intros pw p.
  assert (Hw : Write pw p =
               (fst (Write pw p), (6, Some "no space left"%string)))
    by (vm_compute; reflexivity).
  split; [exact Hw|].
  exact (failed_Write_not_midline pw (fst (Write pw p)) p 6 _ Hw).
Defined.

(** X4. A prefix writer over a destination that keeps the contract of
    [io.Writer] keeps it too: the count that [Write] returns is between 0
    and [len(p)], and it is less than [len(p)] only together with an
    error. *)
Theorem prefixWriter_keeps_contract (pw pw' : prefixWriter Sink)
    (p : list byte) (n : Z) (err : option error) :
  obeys_contract (w pw) ->
  len p <= max_int ->
  Write pw p = (pw', (n, err)) ->
  0 <= n <= len p /\ (err = None -> n = len p).
Proof.
  intros Hc Hmax Hw. rewrite Write_spans in Hw.
  pose proof (write_spans_result p pw pw' 0 (len p) n err Hc
                ltac:(lia) eq_refl Hmax Hw) as H.
  pose proof (len_nonneg p) as Hp.
  destruct err as [e|].
  - destruct H as (done & s & rest & k & Hsp & _ & _ & Hk & Hn).
    split; [|discriminate].
    assert (Hl : len p = len (List.concat done) + len s + len (List.concat rest)).
    { rewrite <- (concat_spans p) at 1. rewrite Hsp, concat_app. simpl.
      rewrite !len_app. lia. }
    pose proof (len_nonneg (List.concat done)).
    pose proof (len_nonneg (List.concat rest)). lia.
  - destruct H as (Hn & _). split; [lia|intros _; exact Hn].
Qed.

Lemma prefixWriter_keeps_contract_witness :
  let pw := newPrefixWriter "> " full_after_three in
  let p := bytes_of "ab
cd
ef" in
  obeys_contract (w pw) /\ len p <= max_int /\
  Write pw p = (fst (Write pw p), (4, Some "no space left"%string)) /\
  0 <= 4 <= len p /\ (Some "no space left"%string = None -> 4 = len p).
Proof.
  intros pw p.
  assert (Hc : obeys_contract (w pw)).
  { intros h q. simpl. pose proof (len_nonneg q).
    destruct (len h <? 3); simpl; split; try lia; try reflexivity; discriminate. }
  assert (Hmax : len p <= max_int) by (vm_compute; discriminate).
  assert (Hw : Write pw p =
               (fst (Write pw p), (4, Some "no space left"%string)))
    by (vm_compute; reflexivity).
  split; [exact Hc|]. split; [exact Hmax|]. split; [exact Hw|].
  exact (prefixWriter_keeps_contract pw (fst (Write pw p)) p 4 _ Hc Hmax Hw).
Defined.

(** X5. When no call fails, the bytes that the destination holds after the
    chunks were written to a fresh prefix writer are the bytes it held
    before, followed by every line of the concatenated chunks with the prefix
    in front of it; a last line without newline has the prefix too. *)
Theorem output_is_prefixed_lines (pfx : string) (s : Sink)
    (chunks : list (list byte)) :
  Forall (fun r => snd r = None)
         (snd (WriteAll (newPrefixWriter pfx s) chunks)) ->
  List.concat (received (w (fst (WriteAll (newPrefixWriter pfx s) chunks)))) =
  List.concat (received s) ++
  flat_map (fun line => list_byte_of_string pfx ++ line)
           (spans (List.concat chunks)).
Proof.
  intros Hok.
  pose proof (WriteAll_invariant _ chunks _ _ (fresh_invariant pfx s) Hok) as H.
  rewrite (invariant_bytes _ _ _ H), WriteAll_prefix. reflexivity.
Qed.

Lemma output_is_prefixed_lines_witness :
  let s := os_File [bytes_of "before
"] in
  let chunks := [bytes_of "a"; bytes_of "b
c
"; bytes_of "d"] in
  Forall (fun r => snd r = None)
         (snd (WriteAll (newPrefixWriter "# " s) chunks)) /\
  List.concat (received (w (fst (WriteAll (newPrefixWriter "# " s) chunks)))) =
  List.concat (received s) ++
  flat_map (fun line => list_byte_of_string "# " ++ line)
           (spans (List.concat chunks)).
Proof.
  intros s chunks.
  assert (H : Forall (fun r : Z * option error => snd r = None)
                     (snd (WriteAll (newPrefixWriter "# " s) chunks)))
    by (vm_compute; repeat constructor).
  split; [exact H|].
  exact (output_is_prefixed_lines "# " s chunks H).
Defined.

(** * More about the command runner *)

Lemma Copy_Buffer chunks :
  forall buf : Buffer, Copy buf chunks = (buf ++ List.concat chunks, None).
Proof.
  induction chunks as [|c cs IH]; intros buf; simpl.
  - rewrite app_nil_r. reflexivity.
  - pose proof (len_nonneg c).
    replace (len c <? 0) with false by (symmetry; apply Z.ltb_ge; lia).
    rewrite Z.ltb_irrefl, Z.eqb_refl. simpl.
    rewrite IH, <- app_assoc. reflexivity.
Qed.

Lemma Copy_prefixWriter chunks :
  forall pw : prefixWriter Sink,
    accepting (w pw) -> fits chunks ->
    Copy pw chunks = (fst (WriteAll pw chunks), None).
Proof.
  induction chunks as [|c cs IH]; intros pw Hacc Hfit; simpl; [reflexivity|].
  inversion Hfit as [|? ? Hc Hcs]; subst.
  destruct (accepting_Write_result pw c Hacc Hc) as (pw1 & Hw & _ & _ & _ & Hr).
  rewrite Hw. pose proof (len_nonneg c).
  replace (len c <? 0) with false by (symmetry; apply Z.ltb_ge; lia).
  rewrite Z.ltb_irrefl, Z.eqb_refl. simpl.
  rewrite IH; [|unfold accepting; rewrite Hr; exact Hacc|exact Hcs].
  destruct (WriteAll pw1 cs). reflexivity.
Qed.

Lemma Copy_multiWriter chunks :
  forall (pw : prefixWriter Sink) (buf : Buffer),
    accepting (w pw) -> fits chunks ->
    Copy (mkMultiWriter pw buf) chunks =
    (mkMultiWriter (fst (WriteAll pw chunks)) (buf ++ List.concat chunks), None).
Proof.
  induction chunks as [|c cs IH]; intros pw buf Hacc Hfit; simpl.
  - rewrite app_nil_r. reflexivity.
  - inversion Hfit as [|? ? Hc Hcs]; subst.
    destruct (accepting_Write_result pw c Hacc Hc) as (pw1 & Hw & _ & _ & _ & Hr).
    unfold Write at 1, multiWriter_Writer. cbn [first second].
    rewrite Hw. rewrite Z.eqb_refl. cbn [negb].
    unfold Write at 1, Buffer_Writer. rewrite Z.eqb_refl. cbn [negb].
    pose proof (len_nonneg c).
    replace (len c <? 0) with false by (symmetry; apply Z.ltb_ge; lia).
    rewrite Z.ltb_irrefl, Z.eqb_refl. simpl.
    rewrite IH; [|unfold accepting; rewrite Hr; exact Hacc|exact Hcs].
    destruct (WriteAll pw1 cs). rewrite <- app_assoc. reflexivity.
Qed.

Lemma accepting_os_File written : accepting (os_File written).
Proof. intros h p. reflexivity. Qed.

(** The bytes on a standard stream after a fresh prefix writer over it was
    given the chunks. *)
Lemma os_File_bytes pfx written chunks :
  List.concat
    (received (w (fst (WriteAll (newPrefixWriter pfx (os_File written)) chunks)))) =
  List.concat written ++
  flat_map (fun line => list_byte_of_string pfx ++ line)
           (spans (List.concat chunks)).
Proof.
  pose proof (WriteAll_invariant _ chunks _ _
                (fresh_invariant pfx (os_File written))
                (accepting_WriteAll chunks
                   (newPrefixWriter pfx (os_File written))
                   (accepting_os_File written))) as H.
  rewrite (invariant_bytes _ _ _ H), WriteAll_prefix. reflexivity.
Qed.

Section RunnerMore.
Variable verbose : bool.
Variable env : Env.

(** What a command whose process is started does, when the output of the
    process arrives in Go slices. *)
Lemma runCmd_started ctx name args world :
  let cmd := CommandContext env name args in
  let proc := start env ctx (spawned world) (name :: args) in
  Err cmd = None -> fits (proc_stdout proc) -> fits (proc_stderr proc) ->
  let Stderr1 :=
    fst (WriteAll (newPrefixWriter "[cmd][stderr] " (os_File (os_Stderr world)))
                  (proc_stderr proc)) in
  let out1 :=
    if verbose then
      received (w (fst (WriteAll
        (newPrefixWriter "[cmd][stdout] "
           (os_File (os_Stdout world ++ [bytes_of (echo_line cmd)])))
        (proc_stdout proc))))
    else os_Stdout world in
  runCmd verbose env ctx name args world =
  match proc_err proc with
  | None =>
      (Returned (List.concat (proc_stdout proc)),
       mkWorld (spawned world ++ [name :: args]) out1 (received (w Stderr1)))
  | Some e =>
      (Exited 1,
       mkWorld (spawned world ++ [name :: args]) out1
               (received (w Stderr1) ++ [bytes_of (error_line cmd e)]))
  end.
Proof.
  intros cmd proc HErr Hout Herr Stderr1 out1.
  unfold runCmd, bind, Cmd_Run. fold cmd.
  replace (Args cmd) with (name :: args)
    by (symmetry; apply Args_CommandContext).
  rewrite HErr.
  subst out1 Stderr1. unfold proc in *. destruct verbose; simpl.
  - rewrite Copy_multiWriter; [|apply accepting_os_File|exact Hout].
    rewrite Copy_prefixWriter; [|apply accepting_os_File|exact Herr].
    destruct (proc_err _); reflexivity.
  - rewrite Copy_Buffer.
    rewrite Copy_prefixWriter; [|apply accepting_os_File|exact Herr].
    destruct (proc_err _); reflexivity.
Qed.
End RunnerMore.

(** X6. A command whose process is started and succeeds returns all that
    the process wrote to its standard output, the slices in order, in verbose
    mode as well as outside it; the one process it has started is the one
    with the name and the arguments of the command. *)
Theorem runCmd_captures_stdout (verbose : bool) (env : Env) (ctx : Z)
    (name : string) (args : list string) (world : World) :
  let proc := start env ctx (spawned world) (name :: args) in
  Err (CommandContext env name args) = None ->
  proc_err proc = None ->
  fits (proc_stdout proc) -> fits (proc_stderr proc) ->
  fst (runCmd verbose env ctx name args world) =
    Returned (List.concat (proc_stdout proc)) /\
  spawned (snd (runCmd verbose env ctx name args world)) =
    spawned world ++ [name :: args].
Proof.
  intros proc HErr Hok Hout Herr.
  rewrite (runCmd_started verbose env ctx name args world HErr Hout Herr).
  fold proc. rewrite Hok. split; reflexivity.
Qed.

Lemma runCmd_captures_stdout_witness :
  let env := scenario "main" listing_main_a_b in
  let proc := start env Minute [] git_remote_show in
  Err (CommandContext env "git" ["remote"; "show"; "origin"]%string) = None /\
  proc_err proc = None /\
  fits (proc_stdout proc) /\ fits (proc_stderr proc) /\
  fst (runCmd true env Minute "git" ["remote"; "show"; "origin"]%string world0) =
    Returned (List.concat (proc_stdout proc)) /\
  spawned (snd (runCmd true env Minute "git" ["remote"; "show"; "origin"]%string world0)) =
    spawned world0 ++ [git_remote_show].
Proof.
  intros env proc.
  assert (HErr : Err (CommandContext env "git" ["remote"; "show"; "origin"]%string) = None)
    by reflexivity.
  assert (Hok : proc_err (start env Minute (spawned world0) git_remote_show) = None)
    by reflexivity.
  assert (Hout : fits (proc_stdout (start env Minute (spawned world0) git_remote_show)))
    by (repeat constructor; vm_compute; discriminate).
  assert (Herr : fits (proc_stderr (start env Minute (spawned world0) git_remote_show)))
    by (repeat constructor; vm_compute; discriminate).
  split; [exact HErr|]. split; [exact Hok|]. split; [exact Hout|].
  split; [exact Herr|].
  exact (runCmd_captures_stdout true env Minute "git"
           ["remote"; "show"; "origin"]%string world0 HErr Hok Hout Herr).
Defined.

(** X8. What the process of a command writes to its standard error reaches
    the standard error of the program with the prefix ["[cmd][stderr] "] in
    front of every line, in verbose mode as well as outside it and however
    the writes of the process are divided; when the process fails, the error
    line of [runCmd] follows. *)
Theorem stderr_is_prefixed (verbose : bool) (env : Env) (ctx : Z)
    (name : string) (args : list string) (world : World) :
  let cmd := CommandContext env name args in
  let proc := start env ctx (spawned world) (name :: args) in
  Err cmd = None -> fits (proc_stdout proc) -> fits (proc_stderr proc) ->
  List.concat (os_Stderr (snd (runCmd verbose env ctx name args world))) =
  List.concat (os_Stderr world) ++
  flat_map (fun line => bytes_of "[cmd][stderr] " ++ line)
           (spans (List.concat (proc_stderr proc))) ++
  match proc_err proc with
  | None => []
  | Some e => bytes_of (error_line cmd e)
  end.
Proof.
  intros cmd proc HErr Hout Herr.
  rewrite (runCmd_started verbose env ctx name args world HErr Hout Herr).
  fold proc cmd. destruct (proc_err proc) as [e|]; cbn [snd os_Stderr].
  - rewrite concat_app, os_File_bytes. simpl.
    rewrite app_nil_r, <- app_assoc. reflexivity.
  - rewrite os_File_bytes, app_nil_r. reflexivity.
Qed.

Lemma stderr_is_prefixed_witness :
  let env := scenario "main" listing_main_a_b in
  let cmd := CommandContext env "git" ["remote"; "show"; "origin"]%string in
  let proc := start env Minute [] git_remote_show in
  Err cmd = None /\ fits (proc_stdout proc) /\ fits (proc_stderr proc) /\
  List.concat (os_Stderr (snd (runCmd false env Minute "git"
                                 ["remote"; "show"; "origin"]%string world0))) =
  List.concat (os_Stderr world0) ++
  flat_map (fun line => bytes_of "[cmd][stderr] " ++ line)
           (spans (List.concat (proc_stderr proc))) ++
  match proc_err proc with
  | None => []
  | Some e => bytes_of (error_line cmd e)
  end.
Proof.
  intros env cmd proc.
  assert (HErr : Err (CommandContext env "git" ["remote"; "show"; "origin"]%string) = None)
    by reflexivity.
  assert (Hout : fits (proc_stdout (start env Minute (spawned world0) git_remote_show)))
    by (repeat constructor; vm_compute; discriminate).
  assert (Herr : fits (proc_stderr (start env Minute (spawned world0) git_remote_show)))
    by (repeat constructor; vm_compute; discriminate).
  split; [exact HErr|]. split; [exact Hout|]. split; [exact Herr|].
  exact (stderr_is_prefixed false env Minute "git"
           ["remote"; "show"; "origin"]%string world0 HErr Hout Herr).
Defined.

(** X9. In verbose mode a command whose process is started writes to the
    standard output of the program the echo of its command line and then
    what the process writes to its standard output, with the prefix
    ["[cmd][stdout] "] in front of every line, however the writes of the
    process are divided. *)
Theorem verbose_stdout_is_prefixed (env : Env) (ctx : Z)
    (name : string) (args : list string) (world : World) :
  let cmd := CommandContext env name args in
  let proc := start env ctx (spawned world) (name :: args) in
  Err cmd = None -> fits (proc_stdout proc) -> fits (proc_stderr proc) ->
  List.concat (os_Stdout (snd (runCmd true env ctx name args world))) =
  List.concat (os_Stdout world) ++
  bytes_of (echo_line cmd) ++
  flat_map (fun line => bytes_of "[cmd][stdout] " ++ line)
           (spans (List.concat (proc_stdout proc))).
Proof.
  intros cmd proc HErr Hout Herr.
  rewrite (runCmd_started true env ctx name args world HErr Hout Herr).
  fold proc cmd. destruct (proc_err proc) as [e|]; cbn [snd os_Stdout];
    rewrite os_File_bytes, concat_app; simpl;
    rewrite app_nil_r, <- app_assoc; reflexivity.
Qed.

Lemma verbose_stdout_is_prefixed_witness :
  let env := scenario "main" listing_main_a_b in
  let cmd := CommandContext env "git" ["remote"; "show"; "origin"]%string in
  let proc := start env Minute [] git_remote_show in
  Err cmd = None /\ fits (proc_stdout proc) /\ fits (proc_stderr proc) /\
  List.concat (os_Stdout (snd (runCmd true env Minute "git"
                                 ["remote"; "show"; "origin"]%string world0))) =
  List.concat (os_Stdout world0) ++
  bytes_of (echo_line cmd) ++
  flat_map (fun line => bytes_of "[cmd][stdout] " ++ line)
           (spans (List.concat (proc_stdout proc))).
Proof.
  intros env cmd proc.
  assert (HErr : Err (CommandContext env "git" ["remote"; "show"; "origin"]%string) = None)
    by reflexivity.
  assert (Hout : fits (proc_stdout (start env Minute (spawned world0) git_remote_show)))
    by (repeat constructor; vm_compute; discriminate).
  assert (Herr : fits (proc_stderr (start env Minute (spawned world0) git_remote_show)))
    by (repeat constructor; vm_compute; discriminate).
  split; [exact HErr|]. split; [exact Hout|]. split; [exact Herr|].
  exact (verbose_stdout_is_prefixed env Minute "git"
           ["remote"; "show"; "origin"]%string world0 HErr Hout Herr).
Defined.

(** * More about the orchestrator *)

(** ** The default branch *)

Lemma starts_with_inv lit :
  forall s, regexp.starts_with lit s = true ->
            s = lit ++ skipn (List.length lit) s.
Proof.
  induction lit as [|a lit IH]; intros s H; [reflexivity|].
  destruct s as [|b s]; [discriminate|].
  simpl in H. apply andb_true_iff in H as [Hab Hs].
  apply Byte.byte_dec_bl in Hab. subst b.
  simpl. f_equal. apply IH. exact Hs.
Qed.

Lemma starts_with_app lit rest : regexp.starts_with lit (lit ++ rest) = true.
Proof.
  induction lit as [|a lit IH]; [reflexivity|].
  assert (Ha : Byte.eqb a a = true) by (apply Byte.byte_dec_lb; reflexivity).
  simpl. rewrite IH, Ha. reflexivity.
Qed.

Lemma after_literal_step lit s :
  regexp.after_literal lit s =
  if regexp.starts_with lit s then Some (skipn (List.length lit) s)
  else match s with
       | [] => None
       | _ :: s' => regexp.after_literal lit s'
       end.
Proof. destruct s; reflexivity. Qed.

(** No match: the literal occurs nowhere. *)
Lemma after_literal_None lit s :
  regexp.after_literal lit s = None ->
  forall pre rest, s <> pre ++ lit ++ rest.
Proof.
  induction s as [|c s IH]; intros Hn pre rest Heq;
    rewrite after_literal_step in Hn;
    destruct (regexp.starts_with lit _) eqn:Hs; try discriminate.
  - symmetry in Heq. apply app_eq_nil in Heq as [_ Heq].
    apply app_eq_nil in Heq as [-> _]. discriminate.
  - destruct pre as [|c' pre].
    + simpl in Heq. rewrite Heq, starts_with_app in Hs. discriminate.
    + injection Heq as _ Heq. exact (IH Hn pre rest Heq).
Qed.

(** A match: what is returned follows the leftmost occurrence of the
    literal. *)
Lemma after_literal_Some lit s :
  forall rest,
    regexp.after_literal lit s = Some rest ->
    exists pre,
      s = pre ++ lit ++ rest /\
      forall pre' rest', s = pre' ++ lit ++ rest' ->
                         (List.length pre <= List.length pre')%nat.
Proof.
  induction s as [|c s IH]; intros rest Hs;
    rewrite after_literal_step in Hs;
    destruct (regexp.starts_with lit _) eqn:Hst; try discriminate.
  - injection Hs as <-. exists []. split; [apply starts_with_inv; exact Hst|].
    intros; simpl; lia.
  - injection Hs as <-. exists []. split; [apply starts_with_inv; exact Hst|].
    intros; simpl; lia.
  - destruct (IH rest Hs) as (pre & Heq & Hleft).
    exists (c :: pre). split; [simpl; f_equal; exact Heq|].
    intros pre' rest' Heq'. destruct pre' as [|c' pre'].
    + simpl in Heq'. rewrite Heq', starts_with_app in Hst. discriminate.
    + injection Heq' as _ Heq'. specialize (Hleft pre' rest' Heq').
      simpl. lia.
Qed.

Lemma app_same_length {A} (a b x y : list A) :
  List.length a = List.length b -> a ++ x = b ++ y -> a = b /\ x = y.
Proof.
  revert b. induction a as [|c a IH]; intros [|d b] Hl Heq;
    try discriminate; [split; [reflexivity|exact Heq]|].
  injection Hl as Hl. injection Heq as -> Heq.
  destruct (IH b Hl Heq) as [-> ->]. split; reflexivity.
Qed.

Lemma up_to_newline_app name tail :
  has_newline name = false ->
  tail = [] \/ (exists t, tail = newline :: t) ->
  regexp.up_to_newline (name ++ tail) = name.
Proof.
  intros Hn Ht. induction name as [|c name IH]; simpl in *.
  - destruct Ht as [->|[t ->]]; reflexivity.
  - apply orb_false_iff in Hn as [Hc Hn]. rewrite Hc, IH by exact Hn.
    reflexivity.
Qed.

(** X10. When [git remote show origin] succeeds and its output does not
    contain ["HEAD branch: "], [getDefaultBranch] ends the program with
    status 1 after writing its message, without a newline, to standard
    error; it starts no other process. *)
Theorem no_head_branch_exits (verbose : bool) (env : Env)
    (world w1 : World) (out : list byte) :
  runCmdDefaultTimeout verbose env "git" ["remote"; "show"; "origin"]%string world =
    (Returned out, w1) ->
  (forall pre rest, out <> pre ++ bytes_of "HEAD branch: " ++ rest) ->
  getDefaultBranch verbose env world =
    (Exited 1,
     mkWorld (spawned w1) (os_Stdout w1)
             (os_Stderr w1 ++
              [bytes_of "[error] failed to extract default branch"])).
Proof.
  intros Hr Hno. unfold getDefaultBranch.
  rewrite (bind_returned _ _ _ _ _ Hr).
  unfold defaultBranchRegexp, regexp.FindSubmatch.
  destruct (regexp.after_literal (list_byte_of_string "HEAD branch: ") out)
    as [rest|] eqn:Ha.
  - destruct (after_literal_Some _ _ _ Ha) as (pre & Heq & _).
    exfalso. exact (Hno pre rest Heq).
  - reflexivity.
Qed.

Lemma no_head_branch_exits_witness :
  let env :=
    mkEnv (fun name => (name, None))
          (fun _ _ _ => mkProcess [bytes_of "* remote origin
  HEAD branch (remote HEAD is ambiguous)
"] [] None) in
  let r := runCmdDefaultTimeout false env "git"
             ["remote"; "show"; "origin"]%string world0 in
  r = (Returned (bytes_of "* remote origin
  HEAD branch (remote HEAD is ambiguous)
"), snd r) /\
  (forall pre rest, bytes_of "* remote origin
  HEAD branch (remote HEAD is ambiguous)
" <> pre ++ bytes_of "HEAD branch: " ++ rest) /\
  getDefaultBranch false env world0 =
    (Exited 1,
     mkWorld (spawned (snd r)) (os_Stdout (snd r))
             (os_Stderr (snd r) ++
              [bytes_of "[error] failed to extract default branch"])).
Proof.
  intros env r.
  assert (Hr : runCmdDefaultTimeout false env "git"
                 ["remote"; "show"; "origin"]%string world0 =
               (Returned (bytes_of "* remote origin
  HEAD branch (remote HEAD is ambiguous)
"), snd r)) by (vm_compute; reflexivity).
  assert (Hno : forall pre rest, bytes_of "* remote origin
  HEAD branch (remote HEAD is ambiguous)
" <> pre ++ bytes_of "HEAD branch: " ++ rest)
    by (apply after_literal_None; vm_compute; reflexivity).
  split; [exact Hr|]. split; [exact Hno|].
  exact (no_head_branch_exits false env world0 (snd r) _ Hr Hno).
Defined.

(** X11. When [git remote show origin] succeeds, [getDefaultBranch] returns
    what follows the leftmost ["HEAD branch: "] of the output up to the end
    of that line, trimmed of white space. *)
Theorem default_branch_is_first_match (verbose : bool) (env : Env)
    (world w1 : World) (out pre name tail : list byte) :
  runCmdDefaultTimeout verbose env "git" ["remote"; "show"; "origin"]%string world =
    (Returned out, w1) ->
  out = pre ++ bytes_of "HEAD branch: " ++ name ++ tail ->
  (forall pre' rest', out = pre' ++ bytes_of "HEAD branch: " ++ rest' ->
                      (List.length pre <= List.length pre')%nat) ->
  has_newline name = false ->
  tail = [] \/ (exists t, tail = newline :: t) ->
  getDefaultBranch verbose env world =
    (Returned (strings.TrimSpace (string_of_list_byte name)), w1).
Proof.
  intros Hr Hout Hleft Hname Htail. unfold getDefaultBranch.
  rewrite (bind_returned _ _ _ _ _ Hr).
  unfold defaultBranchRegexp, regexp.FindSubmatch.
  destruct (regexp.after_literal (list_byte_of_string "HEAD branch: ") out)
    as [rest|] eqn:Ha.
  - destruct (after_literal_Some _ _ _ Ha) as (pre1 & Heq & Hleft1).
    assert (Hlen : List.length pre1 = List.length pre).
    { specialize (Hleft1 pre (name ++ tail) Hout).
      specialize (Hleft pre1 rest Heq). lia. }
    rewrite Hout in Heq. symmetry in Heq.
    destruct (app_same_length _ _ _ _ Hlen Heq) as [_ Hrest].
    apply app_inv_head in Hrest. subst rest.
    rewrite up_to_newline_app by assumption. reflexivity.
  - exfalso. exact (after_literal_None _ _ Ha pre (name ++ tail) Hout).
Qed.

Lemma default_branch_is_first_match_witness :
  let out := bytes_of "  HEAD branch: trunk 
  HEAD branch: other
" in
  let env := mkEnv (fun name => (name, None))
                   (fun _ _ _ => mkProcess [out] [] None) in
  let r := runCmdDefaultTimeout false env "git"
             ["remote"; "show"; "origin"]%string world0 in
  let pre := bytes_of "  " in
  let name := bytes_of "trunk " in
  let tail := bytes_of "
  HEAD branch: other
" in
  r = (Returned out, snd r) /\
  out = pre ++ bytes_of "HEAD branch: " ++ name ++ tail /\
  (forall pre' rest', out = pre' ++ bytes_of "HEAD branch: " ++ rest' ->
                      (List.length pre <= List.length pre')%nat) /\
  has_newline name = false /\
  (tail = [] \/ (exists t, tail = newline :: t)) /\
  getDefaultBranch false env world0 = (Returned "trunk"%string, snd r).
Proof.
  intros out env r pre name tail.
  assert (Hr : runCmdDefaultTimeout false env "git"
                 ["remote"; "show"; "origin"]%string world0 =
               (Returned out, snd r)) by (vm_compute; reflexivity).
  assert (Hout : out = pre ++ bytes_of "HEAD branch: " ++ name ++ tail)
    by reflexivity.
  assert (Hleft : forall pre' rest',
             out = pre' ++ bytes_of "HEAD branch: " ++ rest' ->
             (List.length pre <= List.length pre')%nat).
  { intros pre' rest' Heq.
    destruct pre' as [|a [|b pre']]; [| |simpl; lia];
      vm_compute in Heq; discriminate. }
  assert (Hname : has_newline name = false) by reflexivity.
  assert (Htail : tail = [] \/ (exists t, tail = newline :: t))
    by (right; eexists; reflexivity).
  split; [exact Hr|]. split; [exact Hout|]. split; [exact Hleft|].
  split; [exact Hname|]. split; [exact Htail|].
  exact (default_branch_is_first_match false env world0 (snd r)
           out pre name tail Hr Hout Hleft Hname Htail).
Defined.

(** ** Every step of the run *)

Section Steps.
Variable force verbose : bool.
Variable env : Env.

Lemma runCmd_step ctx name args world :
  step_of verbose (name :: args) world (runCmd verbose env ctx name args world).
Proof.
  pose proof (runCmd_world verbose env ctx name args world) as [[outs Ho] Hs].
  split.
  - eexists. split; [exact Ho|]. intros ->. reflexivity.
  - exact Hs.
Qed.

Lemma getCurrentBranch_step world :
  step_of verbose git_rev_parse world (getCurrentBranch verbose env world).
Proof.
  pose proof (runCmd_step Minute "git"
                ["rev-parse"; "--abbrev-ref"; "HEAD"]%string world) as H.
  unfold getCurrentBranch, runCmdDefaultTimeout, bind, ret.
  destruct (runCmd _ _ _ _ _ world) as [[out|code] w1]; exact H.
Qed.

Lemma getDefaultBranch_step world :
  step_of verbose git_remote_show world (getDefaultBranch verbose env world).
Proof.
  pose proof (runCmd_step Minute "git"
                ["remote"; "show"; "origin"]%string world) as H.
  unfold getDefaultBranch, runCmdDefaultTimeout, bind, ret.
  destruct (runCmd _ _ _ _ _ world) as [[out|code] w1]; [|exact H].
  destruct (negb (len (defaultBranchRegexp out) =? 2)); [|exact H].
  destruct H as [Hg Hs]. split; [exact Hg|].
  split; [reflexivity|right; exact Hs].
Qed.

Lemma deleteBranch_step branch world :
  step_of verbose (git_branch_d branch) world
          (deleteBranch verbose env branch world).
Proof.
  pose proof (runCmd_step Minute "git" ["branch"; "-d"; branch]%string world) as H.
  unfold deleteBranch, runCmdDefaultTimeout, bind, ret.
  destruct (runCmd _ _ _ _ _ world) as [[out|code] w1]; exact H.
Qed.

Lemma candidates_unmarked tokens :
  Forall unmarked (fold_left keep_branch tokens []).
Proof.
  rewrite keep_branch_filter. simpl. apply Forall_forall.
  intros b Hb. apply filter_In in Hb as [_ Hb].
  unfold unmarked. destruct (strings.HasPrefix b "* "); [discriminate|reflexivity].
Qed.

Lemma getMergedBranches_step world :
  step_of verbose git_branch_merged world
          (getMergedBranches verbose env world) /\
  match fst (getMergedBranches verbose env world) with
  | Returned branches => Forall unmarked branches
  | Exited _ => True
  end.
Proof.
  pose proof (runCmd_step Minute "git" ["branch"; "--merged"]%string world) as H.
  unfold getMergedBranches, runCmdDefaultTimeout, bind.
  destruct (runCmd _ _ _ _ _ world) as [[out|code] w1]; [|split; [exact H|exact I]].
  destruct (bufio.ScanLines out) as [tokens [e|]]; simpl;
    (split; [exact H|apply candidates_unmarked]).
Qed.

(** The loop of [main], however it ends: the first [kr] branches were
    reported and the first [kd] of them deleted. *)
Lemma for_range_any branches :
  forall world,
    let r := for_range branches (report_and_delete force verbose env) world in
    exists kr kd outs,
      (kd <= kr <= List.length branches)%nat /\
      spawned (snd r) =
        spawned world ++ map git_branch_d (firstn kd branches) /\
      (force = false -> kd = 0%nat) /\
      os_Stdout (snd r) = os_Stdout world ++ outs /\
      (verbose = false ->
       outs = map (fun b => bytes_of (report force b)) (firstn kr branches)) /\
      match fst r with
      | Returned _ =>
          kr = List.length branches /\
          (force = true -> kd = List.length branches)
      | Exited code => code = 1
      end.
Proof.
  induction branches as [|b bs IH]; intros world r.
  - subst r. exists 0%nat, 0%nat, []. simpl. rewrite !app_nil_r.
    repeat split; try reflexivity; lia.
  - set (w1 := mkWorld (spawned world)
                       (os_Stdout world ++ [list_byte_of_string (report force b)])
                       (os_Stderr world)).
    assert (Hr : r =
                 match (if force then deleteBranch verbose env b w1
                        else ret tt w1) with
                 | (Returned _, w2) =>
                     for_range bs (report_and_delete force verbose env) w2
                 | (Exited code, w2) => (Exited code, w2)
                 end).
    { subst r. simpl for_range. unfold report_and_delete at 1, bind, Printf.
      fold w1. destruct force; reflexivity. }
    clearbody r. subst r.
    destruct force eqn:Hf.
    + pose proof (deleteBranch_step b w1) as [(o1 & Ho1 & Hq1) Hs].
      destruct (deleteBranch verbose env b w1) as [[[]|code] w2]; simpl in *.
      * destruct (IH w2) as (kr & kd & outs & Hk & Hsp & _ & Hout & Hq & Hres).
        exists (S kr), (S kd), (bytes_of (report true b) :: o1 ++ outs).
        split; [lia|]. split; [|split; [discriminate|split; [|split]]].
        -- rewrite Hsp, Hs. simpl. rewrite <- app_assoc. reflexivity.
        -- rewrite Hout, Ho1. simpl. rewrite <- !app_assoc. reflexivity.
        -- intros Hv. rewrite (Hq1 Hv), (Hq Hv). reflexivity.
        -- destruct (fst (for_range bs _ w2)); [|exact Hres].
           destruct Hres as [-> Hd]. split; [reflexivity|].
           intros _. rewrite (Hd eq_refl). reflexivity.
      * destruct Hs as [-> [Hs|Hs]].
        -- exists 1%nat, 0%nat, (bytes_of (report true b) :: o1).
           split; [lia|]. split; [|split; [discriminate|split; [|split]]].
           ++ rewrite Hs. simpl. rewrite app_nil_r. reflexivity.
           ++ rewrite Ho1. simpl. rewrite <- app_assoc. reflexivity.
           ++ intros Hv. rewrite (Hq1 Hv). reflexivity.
           ++ reflexivity.
        -- exists 1%nat, 1%nat, (bytes_of (report true b) :: o1).
           split; [lia|]. split; [|split; [discriminate|split; [|split]]].
           ++ rewrite Hs. reflexivity.
           ++ rewrite Ho1. simpl. rewrite <- app_assoc. reflexivity.
           ++ intros Hv. rewrite (Hq1 Hv). reflexivity.
           ++ reflexivity.
    + unfold ret.
      destruct (IH w1) as (kr & kd & outs & Hk & Hsp & Hd & Hout & Hq & Hres).
      specialize (Hd eq_refl). subst kd.
      exists (S kr), 0%nat, (bytes_of (report false b) :: outs).
      split; [simpl; lia|]. split; [|split; [reflexivity|split; [|split]]].
      * rewrite Hsp. reflexivity.
      * rewrite Hout. simpl. rewrite <- app_assoc. reflexivity.
      * intros Hv. rewrite (Hq Hv). reflexivity.
      * destruct (fst (for_range bs _ w1)); [|exact Hres].
        destruct Hres as [-> _]. split; [reflexivity|discriminate].
Qed.
End Steps.

(** The run, however it ends. *)
Lemma main_any (force verbose : bool) (env : Env) (world : World) :
  main_shape force verbose world (main force verbose env world).
Proof.
  assert (early : forall (j : nat) (w : World) (outs : list (list byte)),
             (j <= 3)%nat ->
             spawned w = spawned world ++
               firstn j [git_rev_parse; git_remote_show; git_branch_merged] ->
             os_Stdout w = os_Stdout world ++ outs ->
             (verbose = false -> outs = []) ->
             main_shape force verbose world (Exited 1, w)).
  { intros j w outs Hj Hs Ho Hq. exists j, [], 0%nat, 0%nat, outs.
    simpl. rewrite app_nil_r.
    repeat split; try assumption; try reflexivity; try lia; constructor. }
  unfold main. unfold bind at 1.
  pose proof (getCurrentBranch_step verbose env world) as [(o1 & Ho1 & Hq1) Hs1].
  destruct (getCurrentBranch verbose env world) as [[cur|code] w1]; simpl in *.
  2:{ destruct Hs1 as [-> [Hs1|Hs1]].
      - apply (early 0%nat w1 o1); simpl; rewrite ?app_nil_r; auto; lia.
      - apply (early 1%nat w1 o1); simpl; auto; lia. }
  unfold bind at 1.
  pose proof (getDefaultBranch_step verbose env w1) as [(o2 & Ho2 & Hq2) Hs2].
  destruct (getDefaultBranch verbose env w1) as [[def|code] w2]; simpl in *.
  2:{ destruct Hs2 as [-> [Hs2|Hs2]].
      - apply (early 1%nat w2 (o1 ++ o2)); simpl; [lia|congruence| |].
        + rewrite Ho2, Ho1, <- app_assoc. reflexivity.
        + intros Hv. rewrite (Hq1 Hv), (Hq2 Hv). reflexivity.
      - apply (early 2%nat w2 (o1 ++ o2)); simpl; [lia| | |].
        + rewrite Hs2, Hs1, <- app_assoc. reflexivity.
        + rewrite Ho2, Ho1, <- app_assoc. reflexivity.
        + intros Hv. rewrite (Hq1 Hv), (Hq2 Hv). reflexivity. }
  assert (Hsp2 : spawned w2 = spawned world ++ [git_rev_parse; git_remote_show])
    by (rewrite Hs2, Hs1, <- app_assoc; reflexivity).
  assert (Hout2 : os_Stdout w2 = os_Stdout world ++ (o1 ++ o2))
    by (rewrite Ho2, Ho1, <- app_assoc; reflexivity).
  assert (Hquiet2 : verbose = false -> o1 ++ o2 = [])
    by (intros Hv; rewrite (Hq1 Hv), (Hq2 Hv); reflexivity).
  unfold bind at 1.
  destruct (negb (String.eqb cur def)).
  { unfold bind, Fprintf_Stderr, os_Exit. simpl.
    apply (early 2%nat _ (o1 ++ o2)); simpl; auto; lia. }
  unfold ret at 1. unfold bind at 1.
  pose proof (getMergedBranches_step verbose env w2)
    as [[(o3 & Ho3 & Hq3) Hs3] Hun].
  destruct (getMergedBranches verbose env w2) as [[cs|code] w3]; simpl in *.
  2:{ destruct Hs3 as [-> [Hs3|Hs3]].
      - apply (early 2%nat w3 (o1 ++ o2 ++ o3)); simpl; [lia|congruence| |].
        + rewrite Ho3, Hout2, <- !app_assoc. reflexivity.
        + intros Hv. rewrite (Hq1 Hv), (Hq2 Hv), (Hq3 Hv). reflexivity.
      - apply (early 3%nat w3 (o1 ++ o2 ++ o3)); simpl; [lia| | |].
        + rewrite Hs3, Hsp2, <- app_assoc. reflexivity.
        + rewrite Ho3, Hout2, <- !app_assoc. reflexivity.
        + intros Hv. rewrite (Hq1 Hv), (Hq2 Hv), (Hq3 Hv). reflexivity. }
  destruct (for_range_any force verbose env cs w3)
    as (kr & kd & outs & Hk & Hsp & Hd & Hout & Hq & Hres).
  exists 3%nat, cs, kr, kd, (o1 ++ o2 ++ o3 ++ outs).
  split; [lia|]. split; [|split; [exact Hun|split; [exact Hk|split; [exact Hd|
    split; [lia|split; [|split]]]]]].
  - rewrite Hsp, Hs3, Hsp2. simpl. rewrite <- !app_assoc. reflexivity.
  - rewrite Hout, Ho3, Hout2, <- !app_assoc. reflexivity.
  - intros Hv. rewrite (Hq1 Hv), (Hq2 Hv), (Hq3 Hv), (Hq Hv). reflexivity.
  - destruct (fst (for_range cs _ w3)); [|exact Hres].
    split; [reflexivity|exact Hres].
Qed.

(** ** Every run *)

Lemma run_of_main force verbose env world :
  snd (run force verbose env world) = snd (main force verbose env world) /\
  fst (run force verbose env world) =
    match fst (main force verbose env world) with
    | Returned _ => 0
    | Exited code => code
    end.
Proof.
  unfold run. destruct (main force verbose env world) as [[[]|code] w1];
    split; reflexivity.
Qed.

Lemma Forall_firstn_of {A} (P : A -> Prop) k (l : list A) :
  Forall P l -> Forall P (firstn k l).
Proof.
  intros H. revert k. induction H as [|x l Hx Hl IH]; intros [|k]; simpl;
    constructor; auto.
Qed.

(** X13. Without the force flag no run starts a delete command: the
    processes of a dry run are the first one, two or three of [rev-parse],
    [remote show origin] and [branch --merged], in this order, or none. *)
Theorem dry_run_never_deletes (verbose : bool) (env : Env) (world : World) :
  exists j,
    (j <= 3)%nat /\
    spawned (snd (run false verbose env world)) =
      spawned world ++
      firstn j [git_rev_parse; git_remote_show; git_branch_merged].
Proof.
  destruct (run_of_main false verbose env world) as [-> _].
  destruct (main_any false verbose env world)
    as (j & cs & kr & kd & outs & Hj & Hsp & _ & _ & Hd & _).
  exists j. split; [exact Hj|].
  rewrite Hsp, (Hd eq_refl). simpl. rewrite app_nil_r. reflexivity.
Qed.

(** X14. The processes of every run are some of the three queries, in their
    order, followed by delete commands [git branch -d].  A delete command is
    started only with the force flag and after all three queries, and never
    for a name that begins with the marker ["* "] of the current branch. *)
Theorem deletes_only_unmarked (force verbose : bool) (env : Env)
    (world : World) :
  exists j branches,
    spawned (snd (run force verbose env world)) =
      spawned world ++
      firstn j [git_rev_parse; git_remote_show; git_branch_merged] ++
      map git_branch_d branches /\
    Forall unmarked branches /\
    (branches <> [] -> j = 3%nat /\ force = true).
Proof.
  destruct (run_of_main force verbose env world) as [-> _].
  destruct (main_any force verbose env world)
    as (j & cs & kr & kd & outs & Hj & Hsp & Hun & Hk & Hd & Hjr & _).
  exists j, (firstn kd cs). split; [exact Hsp|].
  split; [apply Forall_firstn_of; exact Hun|].
  intros Hne.
  assert (Hkd : kd <> 0%nat) by (intros ->; apply Hne; reflexivity).
  split.
  - destruct (Nat.lt_ge_cases j 3) as [Hlt|Hge]; [|lia].
    specialize (Hjr Hlt). lia.
  - destruct force; [reflexivity|]. specialize (Hd eq_refl). contradiction.
Qed.

(** X15. Outside verbose mode the standard output of every run consists of
    report lines only, one for each of some candidates, none of which begins
    with the marker ["* "]. *)
Theorem quiet_run_prints_reports (force : bool) (env : Env) (world : World) :
  exists branches,
    os_Stdout (snd (run force false env world)) =
      os_Stdout world ++
      map (fun branch => bytes_of (report force branch)) branches /\
    Forall unmarked branches.
Proof.
  destruct (run_of_main force false env world) as [-> _].
  destruct (main_any force false env world)
    as (j & cs & kr & kd & outs & _ & _ & Hun & _ & _ & _ & Hout & Hq & _).
  exists (firstn kr cs). rewrite Hout, (Hq eq_refl).
  split; [reflexivity|apply Forall_firstn_of; exact Hun].
Qed.

Lemma for_range_app {A} (l1 l2 : list A) (body : A -> M unit) :
  forall world,
    for_range (l1 ++ l2) body world =
    match for_range l1 body world with
    | (Returned _, w1) => for_range l2 body w1
    | (Exited code, w1) => (Exited code, w1)
    end.
Proof.
  induction l1 as [|x l1 IH]; intros world; [reflexivity|].
  simpl. unfold bind. destruct (body x world) as [[[]|code] w1]; [|reflexivity].
  apply IH.
Qed.

(** X16. With the force flag, the loop of [main] stops at the first delete
    command that fails: when the delete commands of the branches [pre]
    succeed and the one of [b] fails, the run exits with status 1, the only
    delete commands started are those of [pre] and possibly that of [b],
    and, outside verbose mode, the report lines printed are those of [pre]
    and [b]; no branch after [b] is reported or deleted. *)
Theorem first_failed_delete_stops (verbose : bool) (env : Env)
    (pre post : list string) (b : string) (world : World) :
  (forall branch w, In branch pre ->
     exists w', deleteBranch verbose env branch w = (Returned tt, w')) ->
  (forall w, exists code w',
     deleteBranch verbose env b w = (Exited code, w')) ->
  let r := for_range (pre ++ b :: post)
                     (report_and_delete true verbose env) world in
  fst r = Exited 1 /\
  (spawned (snd r) = spawned world ++ map git_branch_d pre \/
   spawned (snd r) = spawned world ++ map git_branch_d (pre ++ [b])) /\
  (verbose = false ->
   os_Stdout (snd r) =
     os_Stdout world ++
     map (fun branch => bytes_of (report true branch)) (pre ++ [b])).
Proof.
  intros Hpre Hb r. subst r. rewrite for_range_app.
  destruct (for_range_report true verbose env pre world (fun _ => Hpre))
    as (w1 & outs & -> & Hsp & Hout & _ & Hex).
  set (w2 := mkWorld (spawned w1)
                     (os_Stdout w1 ++ [list_byte_of_string (report true b)])
                     (os_Stderr w1)).
  destruct (Hb w2) as (code & w3 & Hd).
  pose proof (deleteBranch_step verbose env b w2) as Hstep.
  rewrite Hd in Hstep. destruct Hstep as [(o & Ho & Hq) [-> Hs]].
  simpl in Ho, Hs.
  assert (Heq : for_range (b :: post) (report_and_delete true verbose env) w1 =
                (Exited 1, w3)).
  { simpl for_range. unfold report_and_delete at 1, bind, Printf.
    fold w2. rewrite Hd. reflexivity. }
  rewrite Heq. simpl.
  split; [reflexivity|]. split.
  - destruct Hs as [Hs|Hs]; rewrite Hs, Hsp.
    + left. reflexivity.
    + right. rewrite map_app, <- app_assoc. reflexivity.
  - intros Hv. rewrite Ho, (Hq Hv), Hout, (Hex (or_introl Hv)), app_nil_r.
    rewrite map_app, <- app_assoc. reflexivity.
Qed.

Lemma first_failed_delete_stops_witness :
  let env := scenario_refusing "feature-b" listing_main_a_b in
  let r := for_range (["feature-a"%string] ++ "feature-b"%string :: ["feature-c"%string])
                     (report_and_delete true false env) world0 in
  (forall branch w, In branch ["feature-a"%string] ->
     exists w', deleteBranch false env branch w = (Returned tt, w')) /\
  (forall w, exists code w',
     deleteBranch false env "feature-b" w = (Exited code, w')) /\
  fst r = Exited 1 /\
  (spawned (snd r) = spawned world0 ++ map git_branch_d ["feature-a"%string] \/
   spawned (snd r) =
     spawned world0 ++ map git_branch_d (["feature-a"%string] ++ ["feature-b"%string])) /\
  (false = false ->
   os_Stdout (snd r) =
     os_Stdout world0 ++
     map (fun branch => bytes_of (report true branch))
         (["feature-a"%string] ++ ["feature-b"%string])).
Proof.
  intros env r.
  assert (Hpre : forall branch w, In branch ["feature-a"%string] ->
            exists w', deleteBranch false env branch w = (Returned tt, w'))
    by (intros branch w [<-|[]]; eexists; vm_compute; reflexivity).
  assert (Hb : forall w, exists code w',
            deleteBranch false env "feature-b" w = (Exited code, w'))
    by (intros w; eexists; eexists; vm_compute; reflexivity).
  split; [exact Hpre|]. split; [exact Hb|].
  exact (first_failed_delete_stops false env ["feature-a"%string]
           ["feature-c"%string] "feature-b" world0 Hpre Hb).
Defined.


(** * Blank lines of the listing *)

(** ** The scanner, line by line *)

Lemma scan_line line :
  forall cur rest,
    has_newline line = false ->
    bufio.scan (line ++ newline :: rest) cur =
    if bufio.MaxScanTokenSize <=? len (rev line ++ cur)
    then ([], Some bufio.ErrTooLong)
    else let '(tokens, err) := bufio.scan rest [] in
         (bufio.dropCR (rev (rev line ++ cur)) :: tokens, err).
Proof.
  induction line as [|c line IH]; intros cur rest Hn.
  - reflexivity.
  - simpl in Hn. apply orb_false_iff in Hn as [Hc Hn].
    simpl. rewrite Hc, (IH (c :: cur) rest Hn), <- app_assoc. reflexivity.
Qed.

Lemma scan_app b :
  forall cur rest,
    bufio.scan ((b ++ [newline]) ++ rest) cur =
    match bufio.scan (b ++ [newline]) cur with
    | (tokens, Some e) => (tokens, Some e)
    | (tokens, None) =>
        let '(tokens', err) := bufio.scan rest [] in (tokens ++ tokens', err)
    end.
Proof.
  induction b as [|c b IH]; intros cur rest; simpl.
  - destruct (bufio.MaxScanTokenSize <=? len cur); [reflexivity|].
    destruct (bufio.scan rest []) as [tokens' err]. reflexivity.
  - destruct (Byte.eqb c newline).
    + destruct (bufio.MaxScanTokenSize <=? len cur); [reflexivity|].
      rewrite IH.
      destruct (bufio.scan (b ++ [newline]) []) as [tokens [e|]]; [reflexivity|].
      destruct (bufio.scan rest []) as [tokens' err]. reflexivity.
    + apply IH.
Qed.

(** The lines of a listing, when what comes before the line scans without
    error and ends at the start of a line. *)
Lemma ScanLines_line before line after :
  before = [] \/ (exists b, before = b ++ [newline]) ->
  snd (bufio.ScanLines before) = None ->
  has_newline line = false ->
  len line < bufio.MaxScanTokenSize ->
  fst (bufio.ScanLines (before ++ line ++ newline :: after)) =
  fst (bufio.ScanLines before) ++
  bufio.dropCR line :: fst (bufio.ScanLines after).
Proof.
  intros Hb Hok Hn Hlen. unfold bufio.ScanLines in *.
  assert (Hl : bufio.scan (line ++ newline :: after) [] =
               (bufio.dropCR line :: fst (bufio.scan after []),
                snd (bufio.scan after []))).
  { rewrite scan_line by exact Hn. rewrite app_nil_r.
    replace (len (rev line)) with (len line)
      by (unfold len; rewrite length_rev; reflexivity).
    replace (bufio.MaxScanTokenSize <=? len line) with false
      by (symmetry; apply Z.leb_gt; exact Hlen).
    rewrite rev_involutive.
    destruct (bufio.scan after []). reflexivity. }
  destruct Hb as [->|[b ->]].
  - simpl app. rewrite Hl. reflexivity.
  - rewrite scan_app.
    destruct (bufio.scan (b ++ [newline]) []) as [tokens [e|]];
      [discriminate|].
    rewrite Hl. reflexivity.
Qed.

(** ** White space trims to nothing *)

Lemma isSpace2_first a b :
  isSpace2 a b = true -> isSpace1 a = false.
Proof. destruct a; try discriminate; reflexivity. Qed.

Lemma isSpace3_first a b c :
  isSpace3 a b c = true -> isSpace1 a = false /\ isSpace2 a b = false.
Proof. destruct a; try discriminate; split; reflexivity. Qed.

Lemma trimLeft_white s : white s -> trimLeft s = [].
Proof.
  induction 1 as [|a s Ha _ IH|a b s Hab _ IH|a b c s Habc _ IH].
  - reflexivity.
  - simpl. rewrite Ha. exact IH.
  - cbn [trimLeft]. rewrite (isSpace2_first a b Hab), Hab. exact IH.
  - cbn [trimLeft]. destruct (isSpace3_first a b c Habc) as [H1 H2].
    rewrite H1, H2, Habc. exact IH.
Qed.

Lemma TrimSpace_white s : white s -> bytes.TrimSpace s = [].
Proof.
  intros H. unfold bytes.TrimSpace. rewrite (trimLeft_white s H). reflexivity.
Qed.

Lemma isSpace2_not_CR a : isSpace2 a x0d = false.
Proof. destruct a; reflexivity. Qed.

Lemma isSpace3_not_CR a b : isSpace3 a b x0d = false.
Proof. destruct a; try reflexivity; destruct b; reflexivity. Qed.

(** White space without its last carriage return is white space. *)
Lemma white_without_CR s :
  white s -> forall l, s = l ++ [x0d] -> white l.
Proof.
  induction 1 as [|a s Ha Hs IH|a b s Hab Hs IH|a b c s Habc Hs IH];
    intros l Hl.
  - destruct l; discriminate.
  - destruct l as [|a' l]; [constructor|].
    simpl in Hl. injection Hl; intros Hl' <-.
    apply white_1; [exact Ha|]. apply IH. exact Hl'.
  - destruct l as [|a' [|b' l]]; simpl in Hl.
    + discriminate.
    + injection Hl; intros _ Hb _. subst b.
      rewrite isSpace2_not_CR in Hab. discriminate.
    + injection Hl; intros Hl' <- <-.
      apply white_2; [exact Hab|]. apply IH. exact Hl'.
  - destruct l as [|a' [|b' [|c' l]]]; simpl in Hl.
    + discriminate.
    + discriminate.
    + injection Hl; intros _ Hc _ _. subst c.
      rewrite isSpace3_not_CR in Habc. discriminate.
    + injection Hl; intros Hl' <- <- <-.
      apply white_3; [exact Habc|]. apply IH. exact Hl'.
Qed.

Lemma white_dropCR s : white s -> white (bufio.dropCR s).
Proof.
  intros H. unfold bufio.dropCR.
  destruct (rev s) as [|c r] eqn:E; [exact H|].
  destruct c; try exact H.
  apply (white_without_CR s H).
  rewrite <- (rev_involutive s), E. reflexivity.
Qed.

(** A line of white space only is delivered by the scanner as a token that
    [strings.TrimSpace] makes empty. *)
Lemma TrimSpace_white_line line :
  white line ->
  strings.TrimSpace (string_of_list_byte (bufio.dropCR line)) = ""%string.
Proof.
  intros H. unfold strings.TrimSpace.
  rewrite list_byte_of_string_of_list_byte.
  rewrite (TrimSpace_white _ (white_dropCR line H)). reflexivity.
Qed.

Lemma candidates_of_filter out :
  candidates_of out =
  filter (fun line => negb (strings.HasPrefix line "* "))
         (map (fun token => strings.TrimSpace (string_of_list_byte token))
              (fst (bufio.ScanLines out))).
Proof. unfold candidates_of. rewrite keep_branch_filter. reflexivity. Qed.

(** The candidates of a listing with a line of white space: the empty name
    stands between the candidates from before the line and those from after
    it. *)
Lemma candidates_of_white_line before line after :
  before = [] \/ (exists b, before = b ++ [newline]) ->
  snd (bufio.ScanLines before) = None ->
  white line -> has_newline line = false ->
  len line < bufio.MaxScanTokenSize ->
  candidates_of (before ++ line ++ newline :: after) =
  candidates_of before ++ ""%string :: candidates_of after.
Proof.
  intros Hb Hok Hw Hn Hlen.
  rewrite !candidates_of_filter.
  rewrite (ScanLines_line before line after Hb Hok Hn Hlen).
  rewrite map_app, filter_app. simpl.
  rewrite (TrimSpace_white_line line Hw). reflexivity.
Qed.

(** ** Commands of an executable that is found *)

Section Found.
Variable force verbose : bool.
Variable env : Env.

Lemma Err_CommandContext name args args' :
  Err (CommandContext env name args) = Err (CommandContext env name args').
Proof.
  unfold CommandContext. destruct (is_base name); [|reflexivity].
  destruct (LookPath env name). reflexivity.
Qed.

Lemma runCmd_returned_found ctx name args world out world' :
  runCmd verbose env ctx name args world = (Returned out, world') ->
  Err (CommandContext env name args) = None.
Proof.
  unfold runCmd, bind, Cmd_Run.
  destruct (Err (CommandContext env name args)) as [e|]; [|reflexivity].
  destruct verbose; simpl; discriminate.
Qed.

Lemma runCmd_spawned_found ctx name args world :
  Err (CommandContext env name args) = None ->
  spawned (snd (runCmd verbose env ctx name args world)) =
  spawned world ++ [name :: args].
Proof.
  intros HErr. unfold runCmd, bind, Cmd_Run.
  rewrite Args_CommandContext, HErr.
  destruct verbose; simpl.
  - match goal with |- context [Copy ?t ?cs] =>
      destruct (Copy t cs) as [t1 eo] end.
    match goal with |- context [Copy ?t ?cs] =>
      destruct (Copy t cs) as [t2 ee] end.
    destruct (proc_err _) as [e|]; [|destruct eo as [e|]; [|destruct ee as [e|]]];
      reflexivity.
  - match goal with |- context [@Copy Buffer _ ?t ?cs] =>
      destruct (@Copy Buffer _ t cs) as [t1 eo] end.
    match goal with |- context [Copy ?t ?cs] =>
      destruct (Copy t cs) as [t2 ee] end.
    destruct (proc_err _) as [e|]; [|destruct eo as [e|]; [|destruct ee as [e|]]];
      reflexivity.
Qed.

(** One turn of the loop of [main] prints the report line of the branch
    and, with the force flag, runs its delete command, whatever becomes of
    it. *)
Lemma report_and_delete_effect branch world :
  Err (CommandContext env "git" []) = None ->
  let r := report_and_delete force verbose env branch world in
  (exists outs,
      os_Stdout (snd r) =
        os_Stdout world ++ bytes_of (report force branch) :: outs) /\
  spawned (snd r) =
    spawned world ++ (if force then [git_branch_d branch] else []).
Proof.
  intros Hgit r. subst r.
  unfold report_and_delete, bind, Printf.
  set (w1 := mkWorld (spawned world)
                     (os_Stdout world ++ [list_byte_of_string (report force branch)])
                     (os_Stderr world)).
  destruct force.
  - assert (Hfound : Err (CommandContext env "git"
                            ["branch"; "-d"; branch]%string) = None)
      by (rewrite (Err_CommandContext _ _ []); exact Hgit).
    pose proof (runCmd_spawned_found Minute "git"
                  ["branch"; "-d"; branch]%string w1 Hfound) as Hs.
    pose proof (runCmd_step verbose env Minute "git"
                  ["branch"; "-d"; branch]%string w1) as [(o & Ho & _) _].
    unfold deleteBranch, runCmdDefaultTimeout, bind, ret.
    destruct (runCmd verbose env Minute "git" _ w1) as [[out|code] w2];
      simpl in *; (split; [exists o; rewrite Ho, <- app_assoc; reflexivity|exact Hs]).
  - unfold ret. simpl. split; [exists []; reflexivity|].
    rewrite app_nil_r. reflexivity.
Qed.

(** What the loop has done is not undone by its later turns. *)
Lemma for_range_grows branches world :
  let r := for_range branches (report_and_delete force verbose env) world in
  (exists cmds, spawned (snd r) = spawned world ++ cmds) /\
  (exists outs, os_Stdout (snd r) = os_Stdout world ++ outs).
Proof.
  intros r.
  destruct (for_range_any force verbose env branches world)
    as (kr & kd & outs & _ & Hsp & _ & Hout & _).
  split; eexists; eassumption.
Qed.

Lemma for_range_cons_effect branch branches world :
  Err (CommandContext env "git" []) = None ->
  let r := for_range (branch :: branches)
                     (report_and_delete force verbose env) world in
  (exists outs,
      os_Stdout (snd r) =
        os_Stdout world ++ bytes_of (report force branch) :: outs) /\
  (exists cmds,
      spawned (snd r) =
        spawned world ++ (if force then [git_branch_d branch] else []) ++ cmds).
Proof.
  intros Hgit r. subst r.
  pose proof (report_and_delete_effect branch world Hgit) as [[o Ho] Hs].
  simpl for_range. unfold bind.
  destruct (report_and_delete force verbose env branch world)
    as [[[]|code] w1]; simpl in Ho, Hs.
  - destruct (for_range_grows branches w1) as [[cmds Hc] [outs Hout]].
    split.
    + exists (o ++ outs). rewrite Hout, Ho, <- app_assoc. reflexivity.
    + exists cmds. rewrite Hc, Hs, <- app_assoc. reflexivity.
  - simpl. split.
    + exists o. exact Ho.
    + exists []. rewrite app_nil_r. exact Hs.
Qed.
End Found.

Lemma getCurrentBranch_found verbose env world cur world' :
  getCurrentBranch verbose env world = (Returned cur, world') ->
  Err (CommandContext env "git" []) = None.
Proof.
  unfold getCurrentBranch, runCmdDefaultTimeout, bind, ret.
  destruct (runCmd _ _ _ _ _ world) as [[out|code] w1] eqn:Hr; [|discriminate].
  intros _. rewrite (Err_CommandContext env "git" []
                       ["rev-parse"; "--abbrev-ref"; "HEAD"]%string).
  eapply runCmd_returned_found. exact Hr.
Qed.

(** The run on the default branch is the loop over the candidates. *)
Lemma run_on_default_branch force verbose env world w1 w2 w4 cur branches :
  getCurrentBranch verbose env world = (Returned cur, w1) ->
  getDefaultBranch verbose env w1 = (Returned cur, w2) ->
  getMergedBranches verbose env w2 = (Returned branches, w4) ->
  main force verbose env world =
  for_range branches (report_and_delete force verbose env) w4.
Proof.
  intros Hcur Hdef Hm. unfold main.
  rewrite (bind_returned _ _ _ _ _ Hcur), (bind_returned _ _ _ _ _ Hdef).
  rewrite String.eqb_refl. simpl negb. cbv iota.
  rewrite (bind_returned (ret tt) _ w2 tt w2 eq_refl).
  rewrite (bind_returned _ _ _ _ _ Hm). reflexivity.
Qed.

(** C10. [getMergedBranches] returns, for every listing, the lines of the
    scanner trimmed of white space, without those that begin with the marker
    ["* "] after the trimming.  A line of the listing that holds white space
    only, or nothing, is therefore a candidate, the empty string, between
    the candidates of the lines before it and those of the lines after it.
    On the default branch, [main] prints the report line for the empty name;
    with the force flag, once the delete commands of the candidates before
    it have succeeded, it starts [git branch -d] with the empty name,
    whether or not git then deletes anything. *)
Theorem blank_line_is_candidate (force verbose : bool) (env : Env)
    (world w1 w2 w3 : World) (cur : string)
    (out before line after : list byte) :
  getCurrentBranch verbose env world = (Returned cur, w1) ->
  getDefaultBranch verbose env w1 = (Returned cur, w2) ->
  runCmdDefaultTimeout verbose env "git" ["branch"; "--merged"]%string w2 =
    (Returned out, w3) ->
  out = before ++ line ++ newline :: after ->
  before = [] \/ (exists b, before = b ++ [newline]) ->
  snd (bufio.ScanLines before) = None ->
  white line -> has_newline line = false ->
  len line < bufio.MaxScanTokenSize ->
  let w4 := snd (getMergedBranches verbose env w2) in
  (force = true ->
   fst (for_range (candidates_of before)
                  (report_and_delete force verbose env) w4) = Returned tt) ->
  let candidates :=
    filter (fun line => negb (strings.HasPrefix line "* "))
           (map (fun token => strings.TrimSpace (string_of_list_byte token))
                (fst (bufio.ScanLines out))) in
  getMergedBranches verbose env w2 = (Returned candidates, w4) /\
  candidates = candidates_of before ++ ""%string :: candidates_of after /\
  (exists outs,
      os_Stdout (snd (run force verbose env world)) = os_Stdout w3 ++ outs /\
      In (bytes_of ((if force then "[deleting] " else "[would delete] ") ++ "
")) outs) /\
  (force = true ->
   In (git_branch_d "") (spawned (snd (run force verbose env world)))).
Proof.
  intros Hcur Hdef Hlist Hout Hb Hok Hw Hn Hlen w4 Hpre candidates.
  destruct (getMergedBranches_returned verbose env w2 _ w3 Hlist)
    as (w4' & Hm & Hs4 & Ho4 & _).
  assert (Hw4 : w4 = w4') by (subst w4; rewrite Hm; reflexivity).
  rewrite Hw4 in *. clear Hw4 w4.
  fold (candidates_of out) in Hm.
  assert (Hc : candidates = candidates_of out)
    by (symmetry; apply candidates_of_filter).
  rewrite <- Hc in Hm.
  assert (Hsplit : candidates =
                   candidates_of before ++ ""%string :: candidates_of after)
    by (rewrite Hc, Hout;
        apply candidates_of_white_line; assumption).
  split; [exact Hm|]. split; [exact Hsplit|].
  pose proof (getCurrentBranch_found verbose env world cur w1 Hcur) as Hgit.
  destruct (run_of_main force verbose env world) as [-> _].
  rewrite (run_on_default_branch force verbose env world w1 w2 w4' cur
             candidates Hcur Hdef Hm).
  rewrite Hsplit, for_range_app.
  destruct (for_range_grows force verbose env (candidates_of before) w4')
    as [[c5 Hc5] [o5 Ho5]].
  destruct (for_range (candidates_of before)
                      (report_and_delete force verbose env) w4')
    as [[[]|code] w5] eqn:E5; simpl in Hc5, Ho5.
  - destruct (for_range_cons_effect force verbose env ""%string
                (candidates_of after) w5 Hgit) as [[o6 Ho6] [c6 Hc6]].
    split.
    + exists (o5 ++ bytes_of (report force "") :: o6). split.
      * rewrite Ho6, Ho5, Ho4, <- app_assoc. reflexivity.
      * apply in_or_app. right. left. unfold report.
        destruct force; reflexivity.
    + intros ->. rewrite Hc6. apply in_or_app. right. left. reflexivity.
  - exfalso. destruct force.
    + specialize (Hpre eq_refl). simpl in Hpre. discriminate.
    + destruct (for_range_report false verbose env (candidates_of before) w4')
        as (w & outs & Hret & _); [discriminate|].
      rewrite Hret in E5. discriminate.
Qed.

Lemma blank_line_is_candidate_witness :
  let env := scenario_refusing "" listing_with_spaces in
  let w1 := snd (getCurrentBranch false env world0) in
  let w2 := snd (getDefaultBranch false env w1) in
  let w3 := snd (runCmdDefaultTimeout false env "git"
                   ["branch"; "--merged"]%string w2) in
  let w4 := snd (getMergedBranches false env w2) in
  let before := bytes_of "* main
feature-a
" in
  let line := [x20; x09; xc2; xa0; x0d] in
  let after := bytes_of "feature-b
" in
  getCurrentBranch false env world0 = (Returned "main"%string, w1) /\
  getDefaultBranch false env w1 = (Returned "main"%string, w2) /\
  runCmdDefaultTimeout false env "git" ["branch"; "--merged"]%string w2 =
    (Returned listing_with_spaces, w3) /\
  listing_with_spaces = before ++ line ++ newline :: after /\
  (before = [] \/ (exists b, before = b ++ [newline])) /\
  snd (bufio.ScanLines before) = None /\
  white line /\ has_newline line = false /\
  len line < bufio.MaxScanTokenSize /\
  (true = true ->
   fst (for_range (candidates_of before)
                  (report_and_delete true false env) w4) = Returned tt) /\
  getMergedBranches false env w2 =
    (Returned ["feature-a"; ""; "feature-b"]%string, w4) /\
  ["feature-a"; ""; "feature-b"]%string =
    candidates_of before ++ ""%string :: candidates_of after /\
  (exists outs,
      os_Stdout (snd (run true false env world0)) = os_Stdout w3 ++ outs /\
      In (bytes_of ("[deleting] " ++ "
")) outs) /\
  (true = true -> In (git_branch_d "") (spawned (snd (run true false env world0)))) /\
  fst (run true false env world0) = 1.
Proof.
  intros env w1 w2 w3 w4 before line after.
  assert (Hcur : getCurrentBranch false env world0 =
                 (Returned "main"%string, w1)) by (vm_compute; reflexivity).
  assert (Hdef : getDefaultBranch false env w1 = (Returned "main"%string, w2))
    by (vm_compute; reflexivity).
  assert (Hlist : runCmdDefaultTimeout false env "git"
                    ["branch"; "--merged"]%string w2 =
                  (Returned listing_with_spaces, w3)) by (vm_compute; reflexivity).
  assert (Hout : listing_with_spaces = before ++ line ++ newline :: after)
    by reflexivity.
  assert (Hb : before = [] \/ (exists b, before = b ++ [newline]))
    by (right; exists (bytes_of "* main
feature-a"); reflexivity).
  assert (Hok : snd (bufio.ScanLines before) = None) by reflexivity.
  assert (Hw : white line).
  { apply white_1; [reflexivity|]. apply white_1; [reflexivity|].
    apply white_2; [reflexivity|]. apply white_1; [reflexivity|].
    apply white_nil. }
  assert (Hn : has_newline line = false) by reflexivity.
  assert (Hlen : len line < bufio.MaxScanTokenSize) by reflexivity.
  assert (Hpre : true = true ->
            fst (for_range (candidates_of before)
                           (report_and_delete true false env) w4) = Returned tt)
    by (intros _; vm_compute; reflexivity).
  split; [exact Hcur|]. split; [exact Hdef|]. split; [exact Hlist|].
  split; [exact Hout|]. split; [exact Hb|]. split; [exact Hok|].
  split; [exact Hw|]. split; [exact Hn|]. split; [exact Hlen|].
  split; [exact Hpre|].
  destruct (blank_line_is_candidate true false env world0 w1 w2 w3 "main"
              listing_with_spaces before line after
              Hcur Hdef Hlist Hout Hb Hok Hw Hn Hlen Hpre)
    as (H1 & H2 & H3 & H4).
  split; [exact H1|]. split; [exact H2|]. split; [exact H3|].
  split; [exact H4|]. vm_compute. reflexivity.
Defined.



(** X12. Every call of [os.Exit] that ends [main] passes the status 1: a
    run of [main], entered after [flag.Parse] has returned, that does not
    return exits with status 1, and that is the exit status of the
    program. *)
Theorem exit_of_main_has_status_1 (force verbose : bool) (env : Env)
    (world : World) (code : Z) :
  fst (main force verbose env world) = Exited code ->
  code = 1 /\ fst (run force verbose env world) = 1.
Proof.
  intros Hm.
  destruct (run_of_main force verbose env world) as [_ Hf].
  destruct (main_any force verbose env world)
    as (j & cs & kr & kd & outs & _ & _ & _ & _ & _ & _ & _ & _ & Hres).
  rewrite Hm in Hres, Hf. split; [exact Hres|rewrite Hf; exact Hres].
Qed.

Lemma exit_of_main_has_status_1_witness :
  let env := scenario "feature-a" listing_main_a_b in
  fst (main true true env world0) = Exited 1 /\
  1 = 1 /\ fst (run true true env world0) = 1.
Proof.
  intros env.
  assert (H : fst (main true true env world0) = Exited 1)
    by (vm_compute; reflexivity).
  split; [exact H|].
  exact (exit_of_main_has_status_1 true true env world0 1 H).
Defined.



